(** * Lumi: the ledger engine

    A shallow embedding of the ledger core of the Lumi node
    ([blockchain/index.js]), of the message listener that feeds it
    ([PubSub.listener]) and of the hasher it relies on, together with the
    properties the specification states about them.

    Numbers are integers ([Z]), digests and addresses are strings, a JS
    array is a list, and an object whose property order matters (the
    [outputMap] read through [Object.values]) is an association list in
    property order. *)

From Stdlib Require Import ZArith Ascii.
From stdpp Require Import base strings list gmap sorting pretty.

Local Open Scope Z_scope.

(** ** Data model *)

(** A transaction's [input]: [{ timestamp, amount, address, signature }]. *)
Module Input.
Record t : Type := mk {
  timestamp : Z;
  amount : Z;
  address : string;
  signature : string
}.
End Input.

(** A transaction object.  [ref] is the identity of the JS object (what
    [===] and [Set.prototype.has] compare); the other fields are its
    contents.  Two transactions with the same contents and different
    [ref]s are distinct objects that are deep-equal. *)
Module Transaction.
Record t : Type := mk {
  ref : positive;
  id : string;
  input : Input.t;
  outputMap : list (string * Z)
}.

(** The same object with another [outputMap]. *)
Definition withOutputMap (transaction : t)
    (outputMap' : list (string * Z)) : t :=
  {| ref := ref transaction; id := id transaction;
     input := input transaction; outputMap := outputMap' |}.
End Transaction.

(** A block: [{ timestamp, lastHash, hash, data, nonce, difficulty }]. *)
Module Block.
Record t : Type := mk {
  timestamp : Z;
  lastHash : string;
  hash : string;
  data : list Transaction.t;
  nonce : Z;
  difficulty : Z
}.

(** The same block with other [data]. *)
Definition withData (block : t) (data' : list Transaction.t) : t :=
  {| timestamp := timestamp block; lastHash := lastHash block;
     hash := hash block; data := data';
     nonce := nonce block; difficulty := difficulty block |}.
End Block.

(** The values handed to [cryptoHash] by the ledger: numbers, strings and a
    block's data. *)
Inductive JsValue : Type :=
  | JsNumber (z : Z)
  | JsString (s : string)
  | JsData (d : list Transaction.t).

(** ** The hasher ([util/crypto-hash]) *)

Module Util.

(** Lowercase hexadecimal rendering of a digest, byte by byte. *)
Definition hex_digit (n : N) : ascii :=
  match n with
  | 0%N => "0" | 1%N => "1" | 2%N => "2" | 3%N => "3"
  | 4%N => "4" | 5%N => "5" | 6%N => "6" | 7%N => "7"
  | 8%N => "8" | 9%N => "9" | 10%N => "a" | 11%N => "b"
  | 12%N => "c" | 13%N => "d" | 14%N => "e" | _ => "f"
  end%char.

Definition hex_byte (b : N) : string :=
  String (hex_digit (N.shiftr b 4 mod 16)) (String (hex_digit (b mod 16)) "").

Fixpoint hex (digest : list N) : string :=
  match digest with
  | [] => ""
  | b :: rest => hex_byte b +:+ hex rest
  end.

Fixpoint join (parts : list string) : string :=
  match parts with
  | [] => ""
  | p :: rest => p +:+ join rest
  end.

Section Hasher.
(** The inputs are arbitrary serialisable values. *)
Context {A : Type}.
(** [JSON.stringify], the canonical string form of an input. *)
Variable JSON_stringify : A → string.
(** The fixed 256-bit digest function, from a text to its bytes. *)
Variable sha256 : string → list N.

(** Modelled from the spec: the body of [cryptoHash] (the module
    [util/crypto-hash] itself is missing, only its test is present).
    The inputs are serialised one by one, the serialised forms are
    sorted, concatenated, digested and rendered in lowercase
    hexadecimal. *)
Definition cryptoHash (inputs : list A) : string :=
  hex (sha256 (join (merge_sort String.le (JSON_stringify <$> inputs)))).

End Hasher.

(** A digest for examples: the length of the text and its first
    character. *)
Definition toy_digest (s : string) : list N :=
  [N.of_nat (String.length s) mod 256;
   match s with String c _ => Ascii.N_of_ascii c | EmptyString => 0 end]%N.

End Util.

(** ** What the ledger does to the outside *)

(** The calls the transaction pool receives. *)
Inductive PoolCall : Type :=
  | clearBlockchainTransactions (chain : list Block.t)
  | setTransaction (transaction : Transaction.t).

Inductive ConsoleLine : Type :=
  | console_log (line : string)
  | console_error (line : string).

(** The console, oldest line first, and the calls made to the transaction
    pool, oldest first. *)
Record World : Type := mkWorld {
  console : list ConsoleLine;
  transactionPool : list PoolCall
}.

Definition error (line : string) (w : World) : World :=
  {| console := console w ++ [console_error line];
     transactionPool := transactionPool w |}.

Definition log (line : string) (w : World) : World :=
  {| console := console w ++ [console_log line];
     transactionPool := transactionPool w |}.

Definition pool_call (c : PoolCall) (w : World) : World :=
  {| console := console w;
     transactionPool := transactionPool w ++ [c] |}.

(** An argument that is only tested for truthiness. *)
Inductive JsArg : Type :=
  | JsUndefined
  | JsBoolean (b : bool)
  | JsFunction (f : World → World).

Definition truthy (a : JsArg) : bool :=
  match a with
  | JsUndefined => false
  | JsBoolean b => b
  | JsFunction _ => true
  end.

(** The result of a validation that logs why it fails:
    [ReturnFalse line] is [console.error(line); return false]. *)
Inductive Verdict : Type :=
  | ReturnTrue
  | ReturnFalse (line : string).

Definition returns (v : Verdict) : bool :=
  match v with
  | ReturnTrue => true
  | ReturnFalse _ => false
  end.

(** [if (onSuccess) onSuccess()], for a callback that is a function or
    absent. *)
Definition call (onSuccess : option (World → World)) (w : World) : World :=
  match onSuccess with
  | Some f => f w
  | None => w
  end.

(** ** The ledger ([blockchain/index.js]) *)

Module Blockchain.

Record t : Type := mk { chain : list Block.t }.

Section Ledger.
(** [Block.genesis()], the fixed first block. *)
Variable genesis : Block.t.
(** [JSON.stringify] on a block. *)
Variable JSON_stringify : Block.t → string.
(** [cryptoHash(...inputs)] of [util]. *)
Variable cryptoHash : list JsValue → string.
(** [REWARD_INPUT] and [MINING_REWARD] of [config]. *)
Variable REWARD_INPUT : Input.t.
Variable MINING_REWARD : Z.
(** [Transaction.validTransaction(transaction)]. *)
Variable validTransaction : Transaction.t → bool.
(** [Wallet.calculateBalance({ chain, address })]. *)
Variable calculateBalance : list Block.t → string → Z.

(** [constructor()]. *)
Definition new : t := {| chain := [genesis] |}.

(** [transaction.input.address === REWARD_INPUT.address]. *)
Definition isReward (transaction : Transaction.t) : bool :=
  (Input.address (Transaction.input transaction) =? Input.address REWARD_INPUT)%string.

(** [Object.values(transaction.outputMap)[0] !== MINING_REWARD]; the first
    value of an empty object is [undefined], which differs from every
    number. *)
Definition rewardAmountInvalid (transaction : Transaction.t) : bool :=
  match head (snd <$> Transaction.outputMap transaction) with
  | Some amount => negb (amount =? MINING_REWARD)
  | None => true
  end.

(** The loop over [block.data] in [validTransactionData], from a given
    reward count and set of seen transactions.  [ReturnTrue] stands for the
    loop running to its end. *)
Fixpoint validBlockData (this : t) (transactions : list Transaction.t)
    (rewardTransaactionCount : nat) (transactionSet : gset positive)
    : Verdict :=
  match transactions with
  | [] => ReturnTrue
  | transaction :: rest =>
      if isReward transaction then
        let rewardTransaactionCount := (rewardTransaactionCount + 1)%nat in
        if (1 <? rewardTransaactionCount)%nat then
          ReturnFalse "Miner rewards exceed limit"
        else if rewardAmountInvalid transaction then
          ReturnFalse "miner reward amount is invalid"
        else validBlockData this rest rewardTransaactionCount transactionSet
      else
        if negb (validTransaction transaction) then
          ReturnFalse "invalid Transaction"
        else
          let trueBalance :=
            calculateBalance (chain this)
              (Input.address (Transaction.input transaction)) in
          if negb (Input.amount (Transaction.input transaction) =? trueBalance) then
            ReturnFalse "invalid input amount"
          else if bool_decide (Transaction.ref transaction ∈ transactionSet) then
            ReturnFalse "an identical transaction appears more than once in the block"
          else
            validBlockData this rest rewardTransaactionCount
              ({[Transaction.ref transaction]} ∪ transactionSet)
  end.

(** The loop [for (let i = 1; i < chain.length; i++)] of
    [validTransactionData], over the blocks it visits. *)
Fixpoint validBlocks (this : t) (blocks : list Block.t) : Verdict :=
  match blocks with
  | [] => ReturnTrue
  | block :: rest =>
      match validBlockData this (Block.data block) 0%nat ∅ with
      | ReturnFalse line => ReturnFalse line
      | ReturnTrue => validBlocks this rest
      end
  end.

(** [validTransactionData({ chain })]. *)
Definition validTransactionData (this : t) (chain : list Block.t) : Verdict :=
  validBlocks this (drop 1 chain).

(** One turn of the loop of [isValidChain]: the block [chain[i]] against
    [chain[i-1]]. *)
Definition validLink (previous block : Block.t) : bool :=
  let actualLastHash := Block.hash previous in
  let lastDifficulty := Block.difficulty previous in
  if negb (Block.lastHash block =? actualLastHash)%string then false
  else
    let validatedHash :=
      cryptoHash [JsNumber (Block.timestamp block);
                  JsString (Block.lastHash block);
                  JsData (Block.data block);
                  JsNumber (Block.nonce block);
                  JsNumber (Block.difficulty block)] in
    if negb (Block.hash block =? validatedHash)%string then false
    else if 1 <? Z.abs (lastDifficulty - Block.difficulty block) then false
    else true.

(** The loop [for (let i = 1; i < chain.length; i++)] of [isValidChain],
    with [previous] being [chain[i-1]]. *)
Fixpoint validLinks (previous : Block.t) (blocks : list Block.t) : bool :=
  match blocks with
  | [] => true
  | block :: rest =>
      if validLink previous block then validLinks block rest else false
  end.

(** [static isValidChain(chain)].  On an empty chain [chain[0]] is
    [undefined], whose serialisation is no string. *)
Definition isValidChain (chain : list Block.t) : bool :=
  match chain with
  | [] => false
  | first :: rest =>
      if negb (JSON_stringify first =? JSON_stringify genesis)%string then false
      else validLinks first rest
  end.

(** [replaceChain(chain, validateTransactions, onSuccess)]: the ledger
    and the world after the call. *)
Definition replaceChain (this : t) (chain : list Block.t)
    (validateTransactions : JsArg) (onSuccess : option (World → World))
    (w : World) : t * World :=
  if (length chain <=? length (Blockchain.chain this))%nat then
    (this, error "the incoming chain must be longer" w)
  else if negb (isValidChain chain) then
    (this, error "the chain must be valid" w)
  else
    match (if truthy validateTransactions
           then validTransactionData this chain else ReturnTrue) with
    | ReturnFalse line =>
        (this, error "the incoming chain has invalid data" (error line w))
    | ReturnTrue =>
        ({| chain := chain |}, call onSuccess w)
    end.

(** [Block.mineBlock({ lastBlock, data })] of [block], which searches a
    nonce while it reads the clock: a function of what the clock will say,
    of [_.last(this.chain)] ([None] on an empty array) and of the data;
    [None] when it throws. *)
Variable Clock : Type.
Variable mineBlock :
  Clock → option Block.t → list Transaction.t → option Block.t.

(** [addBlock({ data })]: the ledger after the push, [None] when mining
    threw. *)
Definition addBlock (this : t) (data : list Transaction.t) (clock : Clock)
    : option t :=
  match mineBlock clock (last (chain this)) data with
  | Some newBlock => Some {| chain := chain this ++ [newBlock] |}
  | None => None
  end.

(** *** Predicates used to state the properties *)

(** What the loop asks of one transaction, whatever came before it. *)
Definition txOk (this : t) (transaction : Transaction.t) : Prop :=
  if isReward transaction then rewardAmountInvalid transaction = false
  else validTransaction transaction = true
       ∧ Input.amount (Transaction.input transaction)
         = calculateBalance (chain this)
             (Input.address (Transaction.input transaction)).

Definition rewards (transactions : list Transaction.t) : list Transaction.t :=
  filter (λ t, isReward t = true) transactions.

Definition payments (transactions : list Transaction.t) : list Transaction.t :=
  filter (λ t, isReward t = false) transactions.

End Ledger.
End Blockchain.

(** ** The message listener ([PubSub]) *)

Module PubSub.

Module CHANNELS.
Definition TEST : string := "TEST".
Definition BLOCKCHAIN : string := "BLOCKCHAIN".
Definition TRANSACTION : string := "TRANSACTION".
End CHANNELS.

(** What [JSON.parse(message)] yields on the two channels that carry
    data: a chain or a transaction. *)
Inductive Parsed : Type :=
  | ParsedChain (chain : list Block.t)
  | ParsedTransaction (transaction : Transaction.t).

(** A node: the ledger the listener holds ([this.blockchain]), and the
    world with the pool it talks to ([this.transactionPool]). *)
Record t : Type := mk {
  blockchain : Blockchain.t;
  world : World
}.

Section Listener.
Variable genesis : Block.t.
Variable JSON_stringify : Block.t → string.
Variable cryptoHash : list JsValue → string.
Variable REWARD_INPUT : Input.t.
Variable MINING_REWARD : Z.
Variable validTransaction : Transaction.t → bool.
Variable calculateBalance : list Block.t → string → Z.
(** [JSON.parse]; [None] when it throws. *)
Variable JSON_parse : string → option Parsed.

(** The [message] handler returned by [listener()].  [None] is an
    exception leaving the handler: [JSON.parse] threw, or the payload has
    not the shape its channel carries. *)
Definition listener (this : t) (channel message : string) : option t :=
  let w :=
    log ("Message Received. Channel: " +:+ channel
         +:+ ". Message: " +:+ message) (world this) in
  match JSON_parse message with
  | None => None
  | Some parsedMessage =>
      if (channel =? CHANNELS.BLOCKCHAIN)%string then
        match parsedMessage with
        | ParsedChain chain =>
            let r :=
              Blockchain.replaceChain genesis JSON_stringify cryptoHash
                REWARD_INPUT MINING_REWARD validTransaction calculateBalance
                (blockchain this) chain
                (JsFunction (pool_call (clearBlockchainTransactions chain)))
                None w in
            Some {| blockchain := r.1; world := r.2 |}
        | ParsedTransaction _ => None
        end
      else if (channel =? CHANNELS.TRANSACTION)%string then
        match parsedMessage with
        | ParsedTransaction transaction =>
            Some {| blockchain := blockchain this;
                    world := pool_call (setTransaction transaction) w |}
        | ParsedChain _ => None
        end
      else Some {| blockchain := blockchain this; world := w |}
  end.

End Listener.

(** What [pubnub.publish] is handed. *)
Record Published : Type := mkPublished {
  channel : string;
  message : string
}.

Section Broadcast.
(** [JSON.stringify] on a chain and on a transaction. *)
Variable JSON_stringify_chain : list Block.t → string.
Variable JSON_stringify_transaction : Transaction.t → string.

(** [publish({ channel, message })]: the network's inbox, oldest first,
    after the call. *)
Definition publish (p : Published) (network : list Published)
    : list Published :=
  network ++ [p].

(** [broadcastChain()]. *)
Definition broadcastChain (this : t) (network : list Published)
    : list Published :=
  publish {| channel := CHANNELS.BLOCKCHAIN;
             message := JSON_stringify_chain
                          (Blockchain.chain (blockchain this)) |} network.

(** [broadcastTransaction(transaction)]. *)
Definition broadcastTransaction (transaction : Transaction.t)
    (network : list Published) : list Published :=
  publish {| channel := CHANNELS.TRANSACTION;
             message := JSON_stringify_transaction transaction |} network.

End Broadcast.
End PubSub.

(** ** A sample configuration

    Concrete values for what the ledger takes from the modules around it,
    used to run the definitions on examples. *)

Module Sample.

Definition quote : string := String (ascii_of_nat 34) "".

Definition stringify_transaction (transaction : Transaction.t) : string :=
  "{" +:+ Transaction.id transaction +:+ ":"
  +:+ Input.address (Transaction.input transaction) +:+ "}".

Definition stringify_value (v : JsValue) : string :=
  match v with
  | JsNumber z => pretty z
  | JsString s => quote +:+ s +:+ quote
  | JsData d => "[" +:+ Util.join (stringify_transaction <$> d) +:+ "]"
  end.

Definition stringify_block (b : Block.t) : string :=
  Util.join (stringify_value <$>
    [JsNumber (Block.timestamp b); JsString (Block.lastHash b);
     JsString (Block.hash b); JsData (Block.data b);
     JsNumber (Block.nonce b); JsNumber (Block.difficulty b)]).

Definition cryptoHash : list JsValue → string :=
  Util.cryptoHash stringify_value Util.toy_digest.

Definition REWARD_INPUT : Input.t :=
  {| Input.timestamp := 0; Input.amount := 0;
     Input.address := "*authorized-reward*"; Input.signature := "" |}.

Definition MINING_REWARD : Z := 50.

(** The output amounts add up to the input amount. *)
Definition validTransaction (transaction : Transaction.t) : bool :=
  foldr Z.add 0 (snd <$> Transaction.outputMap transaction)
  =? Input.amount (Transaction.input transaction).

(** Every address holds the starting balance. *)
Definition calculateBalance (chain : list Block.t) (address : string) : Z := 1000.

Definition genesis : Block.t :=
  {| Block.timestamp := 1; Block.lastHash := "-----";
     Block.hash := "hash-one"; Block.data := [];
     Block.nonce := 0; Block.difficulty := 3 |}.

(** A block over [previous] carrying [data], with the hash the ledger
    re-derives. *)
Definition block_on (previous : Block.t) (timestamp : Z)
    (data : list Transaction.t) (nonce difficulty : Z) : Block.t :=
  {| Block.timestamp := timestamp;
     Block.lastHash := Block.hash previous;
     Block.hash :=
       cryptoHash [JsNumber timestamp; JsString (Block.hash previous);
                   JsData data; JsNumber nonce; JsNumber difficulty];
     Block.data := data;
     Block.nonce := nonce;
     Block.difficulty := difficulty |}.

Definition rewardTransaction (ref : positive) (miner : string)
    (amount : Z) : Transaction.t :=
  {| Transaction.ref := ref; Transaction.id := "reward";
     Transaction.input := REWARD_INPUT;
     Transaction.outputMap := [(miner, amount)] |}.

(** A payment of [amount] out of the starting balance. *)
Definition payment (ref : positive) (id sender recipient : string)
    (amount : Z) : Transaction.t :=
  {| Transaction.ref := ref; Transaction.id := id;
     Transaction.input :=
       {| Input.timestamp := 2; Input.amount := 1000;
          Input.address := sender; Input.signature := "sig" |};
     Transaction.outputMap := [(recipient, amount); (sender, 1000 - amount)] |}.

Definition isValidChain : list Block.t → bool :=
  Blockchain.isValidChain genesis stringify_block cryptoHash.

Definition validTransactionData : Blockchain.t → list Block.t → Verdict :=
  Blockchain.validTransactionData REWARD_INPUT MINING_REWARD
    validTransaction calculateBalance.

Definition replaceChain :
    Blockchain.t → list Block.t → JsArg → option (World → World) → World →
    Blockchain.t * World :=
  Blockchain.replaceChain genesis stringify_block cryptoHash
    REWARD_INPUT MINING_REWARD validTransaction calculateBalance.

(** The parser of the examples reads the chain it is told to. *)
Definition listener (incoming : list Block.t) :
    PubSub.t → string → string → option PubSub.t :=
  PubSub.listener genesis stringify_block cryptoHash
    REWARD_INPUT MINING_REWARD validTransaction calculateBalance
    (fun _ => Some (PubSub.ParsedChain incoming)).

Definition local : Blockchain.t := {| Blockchain.chain := [genesis] |}.

Definition quiet : World := {| console := []; transactionPool := [] |}.

(** A block of one payment and the miner's reward, and the chain it makes
    with the genesis block. *)
Definition block1 : Block.t :=
  block_on genesis 5
    [payment 1 "t1" "alice" "bob" 65; rewardTransaction 2 "alice" 50] 7 4.

Definition incoming : list Block.t := [genesis; block1].

Definition clearIncoming : World → World :=
  pool_call (clearBlockchainTransactions incoming).

(** A payment that claims a balance of 9000. *)
Definition overdraft : Transaction.t :=
  {| Transaction.ref := 3; Transaction.id := "t2";
     Transaction.input :=
       {| Input.timestamp := 2; Input.amount := 9000;
          Input.address := "mallory"; Input.signature := "sig" |};
     Transaction.outputMap := [("mallory", 8900); ("foo", 100)] |}.

Definition overdraftChain : list Block.t :=
  [genesis; block_on genesis 5 [overdraft; rewardTransaction 2 "alice" 50] 7 4].

(** One reward object listed twice. *)
Definition twoRewardsChain : list Block.t :=
  [genesis;
   block_on genesis 5
     [payment 1 "t1" "alice" "bob" 65; rewardTransaction 2 "alice" 50;
      rewardTransaction 2 "alice" 50] 7 4].

Definition badReward : Transaction.t := rewardTransaction 4 "alice" 999999.

Definition badRewardChain : list Block.t :=
  [genesis; block_on genesis 5 [payment 1 "t1" "alice" "bob" 65; badReward] 7 4].

(** The same reward in the first block of a chain. *)
Definition badRewardFirst : list Block.t :=
  [Block.withData genesis [badReward]].

(** One payment object listed three times. *)
Definition repeatedChain : list Block.t :=
  [genesis;
   block_on genesis 5
     [payment 1 "t1" "alice" "bob" 65; payment 1 "t1" "alice" "bob" 65;
      payment 1 "t1" "alice" "bob" 65; rewardTransaction 2 "alice" 50] 7 4].

(** The same payment object twice in the first block of a chain. *)
Definition repeatedFirst : list Block.t :=
  [Block.withData genesis
     [payment 1 "t1" "alice" "bob" 65; payment 1 "t1" "alice" "bob" 65]].

(** Two payment objects with the same content. *)
Definition twinsChain : list Block.t :=
  [genesis;
   block_on genesis 5
     [payment 1 "t1" "alice" "bob" 65; payment 5 "t1" "alice" "bob" 65] 7 4].

(** A reward that also credits a second address. *)
Definition generousReward : Transaction.t :=
  {| Transaction.ref := 6; Transaction.id := "reward";
     Transaction.input := REWARD_INPUT;
     Transaction.outputMap := [("alice", 50); ("mallory", 1000000)] |}.

Definition generousBlock : Block.t := block_on genesis 5 [generousReward] 7 4.

Definition node : PubSub.t :=
  {| PubSub.blockchain := local; PubSub.world := quiet |}.

(** A miner for the examples: the clock gives the timestamp, the nonce is
    0 and the difficulty goes up by one; it throws without a last block. *)
Definition mineBlock (clock : Z) (lastBlock : option Block.t)
    (data : list Transaction.t) : option Block.t :=
  match lastBlock with
  | Some previous =>
      Some (block_on previous clock data 0 (Block.difficulty previous + 1))
  | None => None
  end.

Definition addBlock : Blockchain.t → list Transaction.t → Z →
    option Blockchain.t :=
  Blockchain.addBlock Z mineBlock.

(** A parser for the examples that knows one message. *)
Definition parseOnly (message : string) (chain : list Block.t)
    (text : string) : option PubSub.Parsed :=
  if (text =? message)%string then Some (PubSub.ParsedChain chain) else None.

(** The chain [incoming] with its second block twice. *)
Definition replayChain : list Block.t := [genesis; block1; block1].

(** The chain [incoming] with the transactions of its second block in the
    other order, under other proof-of-work fields. *)
Definition swappedChain : list Block.t :=
  [genesis;
   block_on genesis 9
     [rewardTransaction 2 "alice" 50; payment 1 "t1" "alice" "bob" 65] 1 2].


Definition stringify_chain (chain : list Block.t) : string :=
  Util.join (stringify_block <$> chain).

End Sample.

(** * Properties *)

(** ** The hasher *)

Section HasherProps.
Context {A : Type} (JSON_stringify : A → string) (sha256 : string → list N).

Local Abbreviation cryptoHash := (Util.cryptoHash JSON_stringify sha256).

(** Sorting forgets the order in which the texts came. *)
Lemma merge_sort_perm (l1 l2 : list string) :
  l1 ≡ₚ l2 → merge_sort String.le l1 = merge_sort String.le l2.
Proof.
  intros Hp.
  apply (Sorted_unique String.le).
  - apply Sorted_merge_sort, _.
  - apply Sorted_merge_sort, _.
  - rewrite !merge_sort_Permutation. exact Hp.
Qed.

Lemma sorted_forms_perm (inputs inputs' : list A) :
  inputs ≡ₚ inputs' →
  merge_sort String.le (JSON_stringify <$> inputs)
  = merge_sort String.le (JSON_stringify <$> inputs').
Proof. intros Hp. apply merge_sort_perm. by rewrite Hp. Qed.

Lemma rotate_three {B : Type} (a b c : B) : [a; b; c] ≡ₚ [c; a; b].
Proof. exact (Permutation_app_comm [a; b] [c]). Qed.

(** C9. The hasher is order-independent: two input tuples that are
    permutations of one another have the same digest; in particular
    [hash(a, b, c) = hash(c, a, b)]. *)
Theorem cryptoHash_order_independent :
  (∀ inputs inputs' : list A,
      inputs ≡ₚ inputs' → cryptoHash inputs = cryptoHash inputs')
  ∧ (∀ a b c : A, cryptoHash [a; b; c] = cryptoHash [c; a; b]).
Proof.
  split.
  - intros inputs inputs' Hp. unfold Util.cryptoHash.
    by rewrite (sorted_forms_perm _ _ Hp).
  - intros a b c. unfold Util.cryptoHash.
    by rewrite (sorted_forms_perm _ _ (rotate_three a b c)).
Qed.

End HasherProps.

Example cryptoHash_sample :
  Util.cryptoHash id Util.toy_digest ["two"; "one"; "three"] = "0b6f".
Proof. vm_compute. reflexivity. Qed.

Lemma cryptoHash_order_independent_witness :
  ["one"; "two"; "three"] ≡ₚ ["three"; "one"; "two"]
  ∧ Util.cryptoHash id Util.toy_digest ["one"; "two"; "three"]
    = Util.cryptoHash id Util.toy_digest ["three"; "one"; "two"].
Proof.
  split; [apply rotate_three|].
  apply (proj1 (cryptoHash_order_independent id Util.toy_digest)).
  apply rotate_three.
Defined.

(** ** Lists *)

Lemma lookup_two_split {B : Type} (l : list B) (j k : nat) (x y : B) :
  (j < k)%nat → l !! j = Some x → l !! k = Some y →
  ∃ l1 l2 l3, l = l1 ++ x :: l2 ++ y :: l3.
Proof.
  intros Hjk Hj Hk.
  destruct (list_elem_of_split_length l j x Hj) as (l1 & r & -> & Hlen).
  subst j.
  rewrite lookup_app_r in Hk by lia.
  destruct (k - length l1)%nat as [|k'] eqn:Hd; [lia|].
  simpl in Hk.
  destruct (list_elem_of_split_length r k' y Hk) as (l2 & l3 & -> & _).
  by exists l1, l2, l3.
Qed.

Lemma filter_two_hits {B : Type} (P : B → Prop) `{∀ x, Decision (P x)}
    (l : list B) (j k : nat) (x y : B) :
  j ≠ k → l !! j = Some x → l !! k = Some y → P x → P y →
  (2 ≤ length (filter P l))%nat.
Proof.
  intros Hjk Hj Hk Hx Hy.
  assert (∃ l1 l2 l3 a b, l = l1 ++ a :: l2 ++ b :: l3 ∧ P a ∧ P b)
    as (l1 & l2 & l3 & a & b & -> & Ha & Hb).
  { destruct (decide (j < k)%nat).
    - destruct (lookup_two_split l j k x y) as (l1 & l2 & l3 & ->);
        [done..|]. by exists l1, l2, l3, x, y.
    - destruct (lookup_two_split l k j y x) as (l1 & l2 & l3 & ->);
        [lia|done..|]. by exists l1, l2, l3, y, x. }
  rewrite filter_app, filter_cons_True, filter_app, filter_cons_True by done.
  rewrite length_app. simpl. rewrite length_app. simpl. lia.
Qed.

(** The tail of a chain holds the blocks of index at least one. *)
Lemma elem_of_tail_chain (chain : list Block.t) (i : nat) (block : Block.t) :
  (0 < i)%nat → chain !! i = Some block → block ∈ drop 1 chain.
Proof.
  intros Hi Hb. apply list_elem_of_lookup. exists (i - 1)%nat.
  rewrite lookup_drop. by replace (1 + (i - 1))%nat with i by lia.
Qed.

Lemma returns_false (v : Verdict) : returns v = false ↔ v ≠ ReturnTrue.
Proof. destruct v; simpl; split; intros; congruence. Qed.

Lemma returns_true (v : Verdict) : returns v = true ↔ v = ReturnTrue.
Proof. destruct v; simpl; split; intros; congruence. Qed.

(** ** Transaction validation *)

Section TransactionDataProps.
Context (REWARD_INPUT : Input.t) (MINING_REWARD : Z).
Context (validTransaction : Transaction.t → bool).
Context (calculateBalance : list Block.t → string → Z).

Local Abbreviation isReward := (Blockchain.isReward REWARD_INPUT).
Local Abbreviation rewardAmountInvalid :=
  (Blockchain.rewardAmountInvalid MINING_REWARD).
Local Abbreviation validBlockData :=
  (Blockchain.validBlockData REWARD_INPUT MINING_REWARD
     validTransaction calculateBalance).
Local Abbreviation validBlocks :=
  (Blockchain.validBlocks REWARD_INPUT MINING_REWARD
     validTransaction calculateBalance).
Local Abbreviation validTransactionData :=
  (Blockchain.validTransactionData REWARD_INPUT MINING_REWARD
     validTransaction calculateBalance).
Local Abbreviation txOk :=
  (Blockchain.txOk REWARD_INPUT MINING_REWARD validTransaction
     calculateBalance).
Local Abbreviation rewards := (Blockchain.rewards REWARD_INPUT).
Local Abbreviation payments := (Blockchain.payments REWARD_INPUT).

(** The loop over a block's data runs to its end exactly when every
    transaction passes its own checks, the rewards met so far stay within
    one, and no payment is an object already seen. *)
Lemma validBlockData_ReturnTrue this transactions n seen :
  (n ≤ 1)%nat →
  validBlockData this transactions n seen = ReturnTrue ↔
    Forall (txOk this) transactions
    ∧ (n + length (rewards transactions) ≤ 1)%nat
    ∧ NoDup (Transaction.ref <$> payments transactions)
    ∧ (∀ t, t ∈ payments transactions → Transaction.ref t ∉ seen).
Proof.
  revert n seen.
  induction transactions as [|t rest IH]; intros n seen Hn.
  { simpl. split; [intros _|done].
    split_and!; [constructor|unfold Blockchain.rewards; simpl; lia|constructor|].
    intros t Ht. by apply elem_of_nil in Ht. }
  cbn [Blockchain.validBlockData].
  unfold Blockchain.rewards, Blockchain.payments, Blockchain.txOk.
  rewrite Forall_cons.
  destruct (isReward t) eqn:Hr.
  - rewrite filter_cons_True by done.
    rewrite filter_cons_False by (rewrite Hr; done).
    cbn [length].
    destruct (1 <? n + 1)%nat eqn:Hlt.
    { apply Nat.ltb_lt in Hlt. split; [done|]. intros (_ & ? & _). lia. }
    apply Nat.ltb_ge in Hlt.
    destruct (rewardAmountInvalid t) eqn:Ha.
    { split; [done|]. intros ((Hx & _) & _). congruence. }
    rewrite IH by lia. unfold Blockchain.rewards, Blockchain.payments.
    replace (n + 1 + length (filter (λ t0, isReward t0 = true) rest))%nat
      with (n + S (length (filter (λ t0, isReward t0 = true) rest)))%nat
      by lia.
    tauto.
  - rewrite filter_cons_False by (rewrite Hr; done).
    rewrite filter_cons_True by done.
    rewrite fmap_cons, NoDup_cons.
    destruct (validTransaction t) eqn:Hv; simpl.
    2:{ split; [done|]. by intros (((? & _) & _) & _). }
    destruct (Z.eqb_spec (Input.amount (Transaction.input t))
                (calculateBalance (Blockchain.chain this)
                   (Input.address (Transaction.input t)))) as [He|He]; simpl.
    2:{ split; [done|]. by intros (((_ & ?) & _) & _). }
    case_bool_decide as Hs.
    { split; [done|]. intros (_ & _ & _ & Hseen).
      destruct (Hseen t); [apply list_elem_of_here|done]. }
    rewrite IH by done. unfold Blockchain.rewards, Blockchain.payments.
    split.
    + intros (Hall & Hcount & Hnd & Hseen). split_and!; try done.
      * intros (t' & Heq & Hin)%list_elem_of_fmap.
        apply (Hseen t' Hin), elem_of_union_l, elem_of_singleton.
        by symmetry.
      * intros t' [->|Hin]%elem_of_cons; [done|].
        intros Hin'. by apply (Hseen t' Hin), elem_of_union_r.
    + intros (Hall & Hcount & (Hnotin & Hnd) & Hseen). split_and!; try done.
      * by destruct Hall.
      * intros t' Hin. apply not_elem_of_union. split.
        -- apply not_elem_of_singleton. intros Heq. apply Hnotin.
           apply list_elem_of_fmap. by exists t'.
        -- apply Hseen. by apply list_elem_of_further.
Qed.

Lemma validBlocks_ReturnTrue this blocks :
  validBlocks this blocks = ReturnTrue ↔
    Forall (λ block,
      validBlockData this (Block.data block) 0%nat ∅ = ReturnTrue) blocks.
Proof.
  induction blocks as [|block rest IH]; simpl.
  { split; [constructor|done]. }
  rewrite Forall_cons.
  destruct (validBlockData this (Block.data block) 0%nat ∅) eqn:Hb.
  - rewrite IH. tauto.
  - split; [done|]. by intros [? _].
Qed.

(** An accepted chain has every block from index one on running its loop
    to the end. *)
Lemma validTransactionData_block this chain i block :
  validTransactionData this chain = ReturnTrue →
  (0 < i)%nat → chain !! i = Some block →
  Forall (txOk this) (Block.data block)
  ∧ (length (rewards (Block.data block)) ≤ 1)%nat
  ∧ NoDup (Transaction.ref <$> payments (Block.data block)).
Proof.
  intros Hv Hi Hb. unfold Blockchain.validTransactionData in Hv.
  apply validBlocks_ReturnTrue in Hv.
  rewrite Forall_forall in Hv.
  specialize (Hv block (elem_of_tail_chain chain i block Hi Hb)).
  apply validBlockData_ReturnTrue in Hv; [|lia].
  destruct Hv as (? & ? & ? & _). split_and!; [done|lia|done].
Qed.

(** A transaction that fails its own checks sinks the chain. *)
Lemma validTransactionData_not_ok this chain i block transaction :
  (0 < i)%nat → chain !! i = Some block →
  transaction ∈ Block.data block →
  ¬ txOk this transaction →
  returns (validTransactionData this chain) = false.
Proof.
  intros Hi Hb Ht Hbad. apply returns_false. intros Hv.
  destruct (validTransactionData_block this chain i block Hv Hi Hb)
    as (Hall & _).
  rewrite Forall_forall in Hall. by apply Hbad, Hall.
Qed.

(** The verdict looks at [validTransaction] and at the balances only
    through the payments of the candidate, and at the balances only over
    the local chain. *)
Lemma validBlockData_ext validTransaction' calculateBalance'
    this transactions n seen :
  (∀ t, t ∈ transactions → isReward t = false →
        validTransaction' t = validTransaction t
        ∧ calculateBalance' (Blockchain.chain this)
            (Input.address (Transaction.input t))
          = calculateBalance (Blockchain.chain this)
              (Input.address (Transaction.input t))) →
  Blockchain.validBlockData REWARD_INPUT MINING_REWARD
    validTransaction' calculateBalance' this transactions n seen
  = validBlockData this transactions n seen.
Proof.
  revert n seen.
  induction transactions as [|t rest IH]; intros n seen Hagree; [done|].
  cbn [Blockchain.validBlockData].
  assert (Hrest : ∀ t', t' ∈ rest → isReward t' = false →
            validTransaction' t' = validTransaction t'
            ∧ calculateBalance' (Blockchain.chain this)
                (Input.address (Transaction.input t'))
              = calculateBalance (Blockchain.chain this)
                  (Input.address (Transaction.input t'))).
  { intros t' Hin. apply Hagree. by apply list_elem_of_further. }
  destruct (isReward t) eqn:Hr.
  - by rewrite IH.
  - destruct (Hagree t (list_elem_of_here _ _) Hr) as [-> ->].
    by rewrite !IH.
Qed.

Lemma validBlocks_ext validTransaction' calculateBalance' this blocks :
  (∀ block t, block ∈ blocks → t ∈ Block.data block → isReward t = false →
        validTransaction' t = validTransaction t
        ∧ calculateBalance' (Blockchain.chain this)
            (Input.address (Transaction.input t))
          = calculateBalance (Blockchain.chain this)
              (Input.address (Transaction.input t))) →
  Blockchain.validBlocks REWARD_INPUT MINING_REWARD
    validTransaction' calculateBalance' this blocks
  = validBlocks this blocks.
Proof.
  induction blocks as [|block rest IH]; intros Hagree; [done|].
  cbn [Blockchain.validBlocks].
  rewrite validBlockData_ext.
  2:{ intros t Hin. apply (Hagree block); [apply list_elem_of_here|done]. }
  rewrite IH; [done|].
  intros block' t Hin. apply Hagree. by apply list_elem_of_further.
Qed.

(** Swapping a reward for another reward that fares alike in the amount
    check leaves the loop's verdict as it was. *)
Lemma validBlockData_insert_reward this transactions j t t' n seen :
  transactions !! j = Some t →
  isReward t = true → isReward t' = true →
  rewardAmountInvalid t' = rewardAmountInvalid t →
  validBlockData this (<[j:=t']> transactions) n seen
  = validBlockData this transactions n seen.
Proof.
  intros Hj Hr Hr' Ha. revert j n seen Hj.
  induction transactions as [|x rest IH]; intros j n seen Hj; [done|].
  destruct j as [|j]; simpl in Hj.
  - injection Hj as ->. cbn [insert list_insert Blockchain.validBlockData].
    by rewrite Hr, Hr', Ha.
  - change (<[S j:=t']> (x :: rest)) with (x :: <[j:=t']> rest).
    cbn [Blockchain.validBlockData]. by rewrite !IH.
Qed.

Lemma validBlocks_insert this blocks i block block' :
  blocks !! i = Some block →
  validBlockData this (Block.data block') 0%nat ∅
  = validBlockData this (Block.data block) 0%nat ∅ →
  validBlocks this (<[i:=block']> blocks) = validBlocks this blocks.
Proof.
  intros Hi Hd. revert i Hi.
  induction blocks as [|x rest IH]; intros i Hi; [done|].
  destruct i as [|i]; simpl in Hi.
  - injection Hi as ->. cbn [insert list_insert Blockchain.validBlocks].
    by rewrite Hd.
  - change (<[S i:=block']> (x :: rest)) with (x :: <[i:=block']> rest).
    cbn [Blockchain.validBlocks]. by rewrite IH.
Qed.

(** The duplicate check fires only on an object met before. *)
Lemma validBlockData_duplicate this transactions n seen :
  NoDup (Transaction.ref <$> transactions) →
  (∀ t, t ∈ transactions → Transaction.ref t ∉ seen) →
  validBlockData this transactions n seen
  ≠ ReturnFalse "an identical transaction appears more than once in the block".
Proof.
  revert n seen.
  induction transactions as [|t rest IH]; intros n seen Hnd Hseen; [done|].
  rewrite fmap_cons, NoDup_cons in Hnd. destruct Hnd as [Hnotin Hnd].
  cbn [Blockchain.validBlockData].
  destruct (isReward t).
  - destruct (1 <? n + 1)%nat; [done|].
    destruct (rewardAmountInvalid t); [done|].
    apply IH; [done|]. intros t' Hin. by apply Hseen, list_elem_of_further.
  - destruct (negb (validTransaction t)); [done|].
    destruct (negb _); [done|].
    case_bool_decide as Hs.
    { by destruct (Hseen t (list_elem_of_here _ _)). }
    apply IH; [done|]. intros t' Hin. apply not_elem_of_union. split.
    + apply not_elem_of_singleton. intros Heq. apply Hnotin.
      apply list_elem_of_fmap. by exists t'.
    + by apply Hseen, list_elem_of_further.
Qed.

(** C5. A payment in a block after the first whose [input.amount] is not
    the balance of its sender computed over the node's own chain makes
    [validTransactionData] return false for the whole candidate; and the
    balance is never computed over anything but the node's own chain: a
    balance calculator that is always handed the local chain gives the
    same verdict. *)
Theorem validTransactionData_input_amount :
  (∀ this chain i block transaction,
      (0 < i)%nat → chain !! i = Some block →
      transaction ∈ Block.data block →
      isReward transaction = false →
      Input.amount (Transaction.input transaction)
      ≠ calculateBalance (Blockchain.chain this)
          (Input.address (Transaction.input transaction)) →
      returns (validTransactionData this chain) = false)
  ∧ (∀ this chain,
      Blockchain.validTransactionData REWARD_INPUT MINING_REWARD
        validTransaction
        (λ _ address, calculateBalance (Blockchain.chain this) address)
        this chain
      = validTransactionData this chain).
Proof.
  split.
  - intros this chain i block transaction Hi Hb Ht Hr Hne.
    apply (validTransactionData_not_ok this chain i block transaction);
      [done..|].
    unfold Blockchain.txOk. rewrite Hr. by intros [_ ?].
  - intros this chain. unfold Blockchain.validTransactionData.
    by apply validBlocks_ext.
Qed.

(** C6. A block after the first that holds more than one reward
    transaction makes [validTransactionData] return false for the whole
    chain, whatever the other transactions are. *)
Theorem validTransactionData_reward_limit this chain i block j k t1 t2 :
  (0 < i)%nat → chain !! i = Some block →
  Block.data block !! j = Some t1 → Block.data block !! k = Some t2 →
  j ≠ k →
  isReward t1 = true → isReward t2 = true →
  returns (validTransactionData this chain) = false.
Proof.
  intros Hi Hb Hj Hk Hjk Hr1 Hr2. apply returns_false. intros Hv.
  destruct (validTransactionData_block this chain i block Hv Hi Hb)
    as (_ & Hcount & _).
  pose proof (filter_two_hits (λ t, isReward t = true)
                (Block.data block) j k t1 t2 Hjk Hj Hk Hr1 Hr2) as Htwo.
  unfold Blockchain.rewards in Hcount. lia.
Qed.

(** C7, amended. A reward transaction in a block after the first whose
    sole [outputMap] value is not [MINING_REWARD] makes
    [validTransactionData] return false for the whole chain. *)
Theorem validTransactionData_reward_amount
    this chain i block transaction recipient amount :
  (0 < i)%nat → chain !! i = Some block →
  transaction ∈ Block.data block →
  isReward transaction = true →
  Transaction.outputMap transaction = [(recipient, amount)] →
  amount ≠ MINING_REWARD →
  returns (validTransactionData this chain) = false.
Proof.
  intros Hi Hb Ht Hr Hm Hne.
  apply (validTransactionData_not_ok this chain i block transaction);
    [done..|].
  unfold Blockchain.txOk, Blockchain.rewardAmountInvalid.
  rewrite Hr, Hm. simpl.
  destruct (Z.eqb_spec amount MINING_REWARD); [done|]. by intros [=].
Qed.

(** C8, amended. The same transaction object twice in one block after
    the first makes [validTransactionData] return false for the whole
    chain; and when the transactions of every visited block are distinct
    objects, equal in content or not, the duplicate check rejects
    nothing. *)
Theorem validTransactionData_same_object :
  (∀ this chain i block j k transaction,
      (0 < i)%nat → chain !! i = Some block →
      Block.data block !! j = Some transaction →
      Block.data block !! k = Some transaction →
      j ≠ k →
      returns (validTransactionData this chain) = false)
  ∧ (∀ this chain,
      (∀ i block, (0 < i)%nat → chain !! i = Some block →
                  NoDup (Transaction.ref <$> Block.data block)) →
      validTransactionData this chain
      ≠ ReturnFalse
          "an identical transaction appears more than once in the block").
Proof.
  split.
  - intros this chain i block j k t Hi Hb Hj Hk Hjk.
    apply returns_false. intros Hv.
    destruct (validTransactionData_block this chain i block Hv Hi Hb)
      as (_ & Hcount & Hnd).
    destruct (isReward t) eqn:Hr.
    + pose proof (filter_two_hits (λ t, isReward t = true)
                    (Block.data block) j k t t Hjk Hj Hk Hr Hr) as Htwo.
      unfold Blockchain.rewards in Hcount. lia.
    + assert (∃ l1 l2 l3, Block.data block = l1 ++ t :: l2 ++ t :: l3)
        as (l1 & l2 & l3 & Hsplit).
      { destruct (decide (j < k)%nat).
        - by apply (lookup_two_split _ j k).
        - apply (lookup_two_split _ k j); [lia|done..]. }
      unfold Blockchain.payments in Hnd. rewrite Hsplit in Hnd.
      rewrite filter_app, filter_cons_True, filter_app, filter_cons_True
        in Hnd by done.
      rewrite fmap_app, fmap_cons, fmap_app, fmap_cons in Hnd.
      apply NoDup_app in Hnd as (_ & _ & Hnd).
      apply NoDup_cons in Hnd as (Hnotin & _).
      apply Hnotin, elem_of_app. right. apply list_elem_of_here.
  - intros this chain Hnd. unfold Blockchain.validTransactionData.
    assert (Hall : ∀ block, block ∈ drop 1 chain →
              NoDup (Transaction.ref <$> Block.data block)).
    { intros block [i' Hb]%list_elem_of_lookup_1. rewrite lookup_drop in Hb.
      apply (Hnd (1 + i')%nat); [lia|done]. }
    clear Hnd. induction (drop 1 chain) as [|block rest IH]; [done|].
    cbn [Blockchain.validBlocks].
    destruct (validBlockData this (Block.data block) 0%nat ∅) eqn:Hd.
    + apply IH. intros block' Hin. by apply Hall, list_elem_of_further.
    + rewrite <- Hd. apply validBlockData_duplicate.
      * apply Hall, list_elem_of_here.
      * intros t _. apply not_elem_of_empty.
Qed.

(** C10. Of a reward transaction the loop reads the first value of
    [outputMap] and nothing more.  A block holding one reward whose first
    value is [MINING_REWARD] passes, whatever further entries the map
    has; on every chain the verdict stays the same when those further
    entries are exchanged for others; and it stays the same under any
    other transaction validator and balance calculator that agree with the
    given ones on payments, so the signature, output-sum and balance
    checks never reach a reward. *)
Theorem validTransactionData_reward_first_value :
  (∀ this first block transaction recipient extra,
      Block.data block = [transaction] →
      isReward transaction = true →
      Transaction.outputMap transaction
      = (recipient, MINING_REWARD) :: extra →
      validTransactionData this [first; block] = ReturnTrue)
  ∧ (∀ this chain i block j transaction recipient extra extra',
      (0 < i)%nat → chain !! i = Some block →
      Block.data block !! j = Some transaction →
      isReward transaction = true →
      Transaction.outputMap transaction
      = (recipient, MINING_REWARD) :: extra →
      validTransactionData this
        (<[i := Block.withData block
                  (<[j := Transaction.withOutputMap transaction
                            ((recipient, MINING_REWARD) :: extra')]>
                     (Block.data block))]> chain)
      = validTransactionData this chain)
  ∧ (∀ validTransaction' calculateBalance' this chain,
      (∀ t, isReward t = false →
            validTransaction' t = validTransaction t
            ∧ ∀ c, calculateBalance' c (Input.address (Transaction.input t))
                   = calculateBalance c
                       (Input.address (Transaction.input t))) →
      Blockchain.validTransactionData REWARD_INPUT MINING_REWARD
        validTransaction' calculateBalance' this chain
      = validTransactionData this chain).
Proof.
  assert (Hfirst : ∀ t recipient extra,
            Transaction.outputMap t = (recipient, MINING_REWARD) :: extra →
            rewardAmountInvalid t = false).
  { intros t recipient extra Hm. unfold Blockchain.rewardAmountInvalid.
    rewrite Hm. simpl. by rewrite Z.eqb_refl. }
  split_and!.
  - intros this first block t recipient extra Hd Hr Hm.
    unfold Blockchain.validTransactionData. simpl.
    rewrite Hd. simpl. by rewrite Hr, (Hfirst t recipient extra Hm).
  - intros this chain i block j t recipient extra extra' Hi Hb Hj Hr Hm.
    unfold Blockchain.validTransactionData.
    rewrite drop_insert_ge by lia.
    apply (validBlocks_insert _ _ _ block).
    { rewrite lookup_drop. by replace (1 + (i - 1))%nat with i by lia. }
    simpl. apply (validBlockData_insert_reward _ _ _ t); [done..| |].
    + exact Hr.
    + rewrite (Hfirst t recipient extra Hm).
      by apply (Hfirst _ recipient extra').
  - intros validTransaction' calculateBalance' this chain Hagree.
    unfold Blockchain.validTransactionData.
    apply validBlocks_ext. intros block t _ _ Hr.
    destruct (Hagree t Hr) as [Hv Hc]. by rewrite Hv, Hc.
Qed.

End TransactionDataProps.

(** ** Structural validation *)

Section ChainProps.
Context (genesis : Block.t) (JSON_stringify : Block.t → string).
Context (cryptoHash : list JsValue → string).

Local Abbreviation validLink := (Blockchain.validLink cryptoHash).
Local Abbreviation validLinks := (Blockchain.validLinks cryptoHash).
Local Abbreviation isValidChain :=
  (Blockchain.isValidChain genesis JSON_stringify cryptoHash).

Lemma validLink_true previous block :
  validLink previous block = true ↔
    Block.lastHash block = Block.hash previous
    ∧ Block.hash block
      = cryptoHash [JsNumber (Block.timestamp block);
                    JsString (Block.lastHash block);
                    JsData (Block.data block);
                    JsNumber (Block.nonce block);
                    JsNumber (Block.difficulty block)]
    ∧ Z.abs (Block.difficulty block - Block.difficulty previous) ≤ 1.
Proof.
  unfold Blockchain.validLink.
  destruct (String.eqb_spec (Block.lastHash block) (Block.hash previous))
    as [Hl|Hl]; simpl; [|by split; [|intros [? _]]].
  destruct (String.eqb_spec (Block.hash block)
              (cryptoHash [JsNumber (Block.timestamp block);
                           JsString (Block.lastHash block);
                           JsData (Block.data block);
                           JsNumber (Block.nonce block);
                           JsNumber (Block.difficulty block)]))
    as [Hh|Hh]; simpl; [|by split; [|intros (_ & ? & _)]].
  destruct (Z.ltb_spec 1
              (Z.abs (Block.difficulty previous - Block.difficulty block)))
    as [Hd|Hd].
  - split; [done|]. intros (_ & _ & ?). lia.
  - split; [|done]. intros _. split_and!; [done..|lia].
Qed.

Lemma validLinks_true previous blocks :
  validLinks previous blocks = true ↔
    ∀ i p b, (previous :: blocks) !! i = Some p →
             (previous :: blocks) !! S i = Some b →
             validLink p b = true.
Proof.
  revert previous. induction blocks as [|block rest IH]; intros previous.
  { simpl. split; [|done]. intros _ [|i] p b ? Hb; simplify_eq/=. }
  cbn [Blockchain.validLinks].
  destruct (validLink previous block) eqn:Hl.
  - rewrite IH. split.
    + intros Hrest [|i] p b Hp Hb.
      * by simplify_eq/=.
      * by apply (Hrest i).
    + intros Hall i p b Hp Hb. by apply (Hall (S i)).
  - split; [done|]. intros Hall.
    rewrite <- Hl. by apply (Hall 0%nat).
Qed.

(** C2. [isValidChain(chain)] is true exactly when [chain[0]] is the
    genesis block, as compared by the code through their serialisations,
    and every later block carries the hash of its predecessor as
    [lastHash], the digest of its own timestamp, lastHash, data, nonce and
    difficulty as [hash], and a difficulty within one of its
    predecessor's.  The chain made of the genesis block alone is valid,
    and a first block with another serialisation makes any chain
    invalid. *)
Theorem isValidChain_iff :
  (∀ chain,
      isValidChain chain = true ↔
        (∃ first, chain !! 0%nat = Some first
                  ∧ JSON_stringify first = JSON_stringify genesis)
        ∧ ∀ i previous block,
            (0 < i)%nat →
            chain !! (i - 1)%nat = Some previous → chain !! i = Some block →
            Block.lastHash block = Block.hash previous
            ∧ Block.hash block
              = cryptoHash [JsNumber (Block.timestamp block);
                            JsString (Block.lastHash block);
                            JsData (Block.data block);
                            JsNumber (Block.nonce block);
                            JsNumber (Block.difficulty block)]
            ∧ Z.abs (Block.difficulty block - Block.difficulty previous) ≤ 1)
  ∧ isValidChain [genesis] = true
  ∧ (∀ first rest,
        JSON_stringify first ≠ JSON_stringify genesis →
        isValidChain (first :: rest) = false).
Proof.
  split_and!.
  - intros [|first rest]; unfold Blockchain.isValidChain.
    { split; [done|]. by intros [(? & ? & _) _]. }
    destruct (String.eqb_spec (JSON_stringify first) (JSON_stringify genesis))
      as [Hg|Hg]; simpl.
    2:{ split; [done|]. intros [(? & ? & ?) _]. by simplify_eq/=. }
    rewrite validLinks_true. split.
    + intros Hall. split; [by exists first|].
      intros i previous block Hi Hp Hb. apply validLink_true.
      apply (Hall (i - 1)%nat); [done|].
      by replace (S (i - 1)) with i by lia.
    + intros [_ Hall] i p b Hp Hb. apply validLink_true.
      apply (Hall (S i)); [lia| |done].
      by replace (S i - 1)%nat with i by lia.
  - unfold Blockchain.isValidChain. by rewrite String.eqb_refl.
  - intros first rest Hne. unfold Blockchain.isValidChain.
    by destruct (String.eqb_spec (JSON_stringify first)
                   (JSON_stringify genesis)).
Qed.

End ChainProps.

(** ** Chain replacement *)

Section ReplaceChainProps.
Context (genesis : Block.t) (JSON_stringify : Block.t → string).
Context (cryptoHash : list JsValue → string).
Context (REWARD_INPUT : Input.t) (MINING_REWARD : Z).
Context (validTransaction : Transaction.t → bool).
Context (calculateBalance : list Block.t → string → Z).

Local Abbreviation isValidChain :=
  (Blockchain.isValidChain genesis JSON_stringify cryptoHash).
Local Abbreviation validTransactionData :=
  (Blockchain.validTransactionData REWARD_INPUT MINING_REWARD
     validTransaction calculateBalance).
Local Abbreviation replaceChain :=
  (Blockchain.replaceChain genesis JSON_stringify cryptoHash
     REWARD_INPUT MINING_REWARD validTransaction calculateBalance).

Lemma replaceChain_accept this chain validateTransactions onSuccess w :
  (length (Blockchain.chain this) < length chain)%nat →
  isValidChain chain = true →
  (truthy validateTransactions = true →
   returns (validTransactionData this chain) = true) →
  replaceChain this chain validateTransactions onSuccess w
  = ({| Blockchain.chain := chain |}, call onSuccess w).
Proof.
  intros Hlen Hvalid Hdata. unfold Blockchain.replaceChain.
  destruct (Nat.leb_spec (length chain) (length (Blockchain.chain this)));
    [lia|].
  rewrite Hvalid. simpl.
  destruct (truthy validateTransactions); [|done].
  by rewrite (proj1 (returns_true _) (Hdata eq_refl)).
Qed.

(** The world after a rejection: the same, with error lines on the
    console. *)
Lemma replaceChain_reject this chain validateTransactions onSuccess w :
  (length chain ≤ length (Blockchain.chain this))%nat
  ∨ isValidChain chain = false
  ∨ (truthy validateTransactions = true
     ∧ returns (validTransactionData this chain) = false) →
  ∃ lines, lines ≠ []
    ∧ replaceChain this chain validateTransactions onSuccess w
      = (this, {| console := console w ++ (console_error <$> lines);
                  transactionPool := transactionPool w |}).
Proof.
  intros Hwhy. unfold Blockchain.replaceChain.
  destruct (Nat.leb_spec (length chain) (length (Blockchain.chain this)))
    as [Hle|Hgt].
  { by exists ["the incoming chain must be longer"]. }
  destruct (isValidChain chain) eqn:Hvalid; simpl.
  2:{ by exists ["the chain must be valid"]. }
  destruct Hwhy as [?|[?|[Hset Hdata]]]; [lia|done|].
  rewrite Hset. apply returns_false in Hdata.
  destruct (validTransactionData this chain) as [|line]; [done|].
  exists [line; "the incoming chain has invalid data"]. split; [done|].
  unfold error. simpl. by rewrite <- app_assoc.
Qed.

Lemma accepted_or_not this chain validateTransactions :
  ((length (Blockchain.chain this) < length chain)%nat
   ∧ isValidChain chain = true
   ∧ (truthy validateTransactions = true →
      returns (validTransactionData this chain) = true))
  ∨ ((length chain ≤ length (Blockchain.chain this))%nat
     ∨ isValidChain chain = false
     ∨ (truthy validateTransactions = true
        ∧ returns (validTransactionData this chain) = false)).
Proof.
  destruct (decide (length chain ≤ length (Blockchain.chain this))%nat);
    [by right; left|].
  destruct (isValidChain chain); [|by right; right; left].
  destruct (truthy validateTransactions);
    [|left; split_and!; [lia|done..]].
  destruct (returns (validTransactionData this chain)).
  - left. split_and!; [lia|done..].
  - right. right. right. done.
Qed.

(** C1. [replaceChain] puts the candidate in place of the local chain,
    and runs [onSuccess], when the candidate is strictly longer, passes
    [isValidChain] and, if [validateTransactions] is set, passes
    [validTransactionData]; in every other case it rejects the candidate:
    the ledger stays as it was, [onSuccess] is not run and the only change
    to the world is the report on the console. *)
Theorem replaceChain_iff this chain validateTransactions onSuccess w :
  let accepted :=
    (length (Blockchain.chain this) < length chain)%nat
    ∧ isValidChain chain = true
    ∧ (truthy validateTransactions = true →
       returns (validTransactionData this chain) = true) in
  (accepted →
     replaceChain this chain validateTransactions onSuccess w
     = ({| Blockchain.chain := chain |}, call onSuccess w))
  ∧ (¬ accepted →
     ∃ lines, lines ≠ []
       ∧ replaceChain this chain validateTransactions onSuccess w
         = (this, {| console := console w ++ (console_error <$> lines);
                     transactionPool := transactionPool w |})).
Proof.
  intros accepted. split.
  - intros (Hlen & Hvalid & Hdata). by apply replaceChain_accept.
  - intros Hnot.
    destruct (accepted_or_not this chain validateTransactions) as [?|Hwhy];
      [done|].
    by apply replaceChain_reject.
Qed.

(** C3. When [replaceChain] rejects the candidate, for being no longer
    than the local chain, structurally invalid or invalid in its
    transaction data, the ledger is exactly what it was and the pool has
    heard nothing; and whatever the candidate, the ledger afterwards is
    the old one or the whole candidate, never a part of it. *)
Theorem replaceChain_all_or_nothing :
  (∀ this chain validateTransactions onSuccess w,
      (length chain ≤ length (Blockchain.chain this))%nat
      ∨ isValidChain chain = false
      ∨ (truthy validateTransactions = true
         ∧ returns (validTransactionData this chain) = false) →
      (replaceChain this chain validateTransactions onSuccess w).1 = this
      ∧ transactionPool
          (replaceChain this chain validateTransactions onSuccess w).2
        = transactionPool w)
  ∧ (∀ this chain validateTransactions onSuccess w,
      (replaceChain this chain validateTransactions onSuccess w).1 = this
      ∨ (replaceChain this chain validateTransactions onSuccess w).1
        = {| Blockchain.chain := chain |}).
Proof.
  split.
  - intros this chain validateTransactions onSuccess w Hwhy.
    destruct (replaceChain_reject this chain validateTransactions
                onSuccess w Hwhy) as (lines & _ & ->).
    done.
  - intros this chain validateTransactions onSuccess w.
    destruct (accepted_or_not this chain validateTransactions)
      as [(Hlen & Hvalid & Hdata)|Hwhy].
    + right. by rewrite replaceChain_accept.
    + left.
      by destruct (replaceChain_reject this chain validateTransactions
                     onSuccess w Hwhy) as (lines & _ & ->).
Qed.

End ReplaceChainProps.

(** ** The listener *)

Section ListenerProps.
Context (genesis : Block.t) (JSON_stringify : Block.t → string).
Context (cryptoHash : list JsValue → string).
Context (REWARD_INPUT : Input.t) (MINING_REWARD : Z).
Context (validTransaction : Transaction.t → bool).
Context (calculateBalance : list Block.t → string → Z).
Context (JSON_parse : string → option PubSub.Parsed).

Local Abbreviation isValidChain :=
  (Blockchain.isValidChain genesis JSON_stringify cryptoHash).
Local Abbreviation validTransactionData :=
  (Blockchain.validTransactionData REWARD_INPUT MINING_REWARD
     validTransaction calculateBalance).
Local Abbreviation replaceChain :=
  (Blockchain.replaceChain genesis JSON_stringify cryptoHash
     REWARD_INPUT MINING_REWARD validTransaction calculateBalance).
Local Abbreviation listener :=
  (PubSub.listener genesis JSON_stringify cryptoHash
     REWARD_INPUT MINING_REWARD validTransaction calculateBalance
     JSON_parse).

(** On the chain channel the callback travels in the place of
    [validateTransactions], and the place of [onSuccess] is empty. *)
Lemma listener_chain_update this message chain :
  JSON_parse message = Some (PubSub.ParsedChain chain) →
  listener this PubSub.CHANNELS.BLOCKCHAIN message
  = let r :=
      replaceChain (PubSub.blockchain this) chain
        (JsFunction (pool_call (clearBlockchainTransactions chain))) None
        (log ("Message Received. Channel: BLOCKCHAIN. Message: " +:+ message)
           (PubSub.world this)) in
    Some {| PubSub.blockchain := r.1; PubSub.world := r.2 |}.
Proof. intros Hp. unfold PubSub.listener. by rewrite Hp. Qed.

(** C4, as the code has it.  A chain update whose chain is strictly
    longer than the local one and passes both validations is accepted, the
    transactions having been validated, and the pool receives no call: the
    clearing callback is handed over as [validateTransactions] and never
    run. *)
Theorem listener_chain_update_leaves_pool this message chain :
  JSON_parse message = Some (PubSub.ParsedChain chain) →
  (length (Blockchain.chain (PubSub.blockchain this)) < length chain)%nat →
  isValidChain chain = true →
  returns (validTransactionData (PubSub.blockchain this) chain) = true →
  ∃ this',
    listener this PubSub.CHANNELS.BLOCKCHAIN message = Some this'
    ∧ Blockchain.chain (PubSub.blockchain this') = chain
    ∧ transactionPool (PubSub.world this')
      = transactionPool (PubSub.world this).
Proof.
  intros Hp Hlen Hvalid Hdata.
  rewrite (listener_chain_update this message chain Hp).
  rewrite replaceChain_accept by done.
  eexists. split; [done|]. done.
Qed.

End ListenerProps.

(** ** The properties on the sample configuration *)

Example isValidChain_incoming : Sample.isValidChain Sample.incoming = true.
Proof. vm_compute. reflexivity. Qed.

Example validTransactionData_incoming :
  Sample.validTransactionData Sample.local Sample.incoming = ReturnTrue.
Proof. vm_compute. reflexivity. Qed.

Example validTransactionData_twins :
  Sample.validTransactionData Sample.local Sample.twinsChain = ReturnTrue.
Proof. vm_compute. reflexivity. Qed.

Example validTransactionData_repeated :
  Sample.validTransactionData Sample.local Sample.repeatedChain
  = ReturnFalse "an identical transaction appears more than once in the block".
Proof. vm_compute. reflexivity. Qed.

Lemma replaceChain_iff_witness :
  ((length (Blockchain.chain Sample.local) < length Sample.incoming)%nat
   ∧ Sample.isValidChain Sample.incoming = true
   ∧ (truthy (JsBoolean true) = true →
      returns (Sample.validTransactionData Sample.local Sample.incoming)
      = true))
  ∧ Sample.replaceChain Sample.local Sample.incoming (JsBoolean true)
      (Some Sample.clearIncoming) Sample.quiet
    = ({| Blockchain.chain := Sample.incoming |},
       Sample.clearIncoming Sample.quiet).
Proof.
  assert (Hacc :
    (length (Blockchain.chain Sample.local) < length Sample.incoming)%nat
    ∧ Sample.isValidChain Sample.incoming = true
    ∧ (truthy (JsBoolean true) = true →
       returns (Sample.validTransactionData Sample.local Sample.incoming)
       = true)).
  { split_and!; [simpl; lia|vm_compute; reflexivity|].
    intros _. vm_compute. reflexivity. }
  split; [exact Hacc|].
  exact (proj1 (replaceChain_iff Sample.genesis Sample.stringify_block
                  Sample.cryptoHash Sample.REWARD_INPUT Sample.MINING_REWARD
                  Sample.validTransaction Sample.calculateBalance
                  Sample.local Sample.incoming (JsBoolean true)
                  (Some Sample.clearIncoming) Sample.quiet) Hacc).
Defined.

Lemma isValidChain_iff_witness :
  Sample.isValidChain Sample.incoming = true
  ∧ Block.lastHash Sample.block1 = Block.hash Sample.genesis
  ∧ Z.abs (Block.difficulty Sample.block1 - Block.difficulty Sample.genesis)
    ≤ 1.
Proof.
  assert (Hv : Sample.isValidChain Sample.incoming = true).
  { vm_compute. reflexivity. }
  split; [exact Hv|].
  destruct (proj1 (proj1 (isValidChain_iff Sample.genesis
                            Sample.stringify_block Sample.cryptoHash)
                     Sample.incoming) Hv) as [_ Hlinks].
  destruct (Hlinks 1%nat Sample.genesis Sample.block1) as (Hl & _ & Hd);
    [lia|reflexivity|reflexivity|].
  split; [exact Hl|exact Hd].
Defined.

Lemma replaceChain_all_or_nothing_witness :
  (length [Sample.genesis] ≤ length (Blockchain.chain Sample.local))%nat
  ∧ (Sample.replaceChain Sample.local [Sample.genesis] (JsBoolean true)
       (Some Sample.clearIncoming) Sample.quiet).1 = Sample.local.
Proof.
  assert (Hle :
    (length [Sample.genesis] ≤ length (Blockchain.chain Sample.local))%nat).
  { simpl. lia. }
  split; [exact Hle|].
  exact (proj1 (proj1 (replaceChain_all_or_nothing Sample.genesis
                         Sample.stringify_block Sample.cryptoHash
                         Sample.REWARD_INPUT Sample.MINING_REWARD
                         Sample.validTransaction Sample.calculateBalance)
                  Sample.local [Sample.genesis] (JsBoolean true)
                  (Some Sample.clearIncoming) Sample.quiet
                  (or_introl Hle))).
Defined.

Lemma listener_chain_update_leaves_pool_witness :
  ∃ this',
    Sample.listener Sample.incoming Sample.node
      PubSub.CHANNELS.BLOCKCHAIN "chain" = Some this'
    ∧ Blockchain.chain (PubSub.blockchain this') = Sample.incoming
    ∧ transactionPool (PubSub.world this') = [].
Proof.
  apply (listener_chain_update_leaves_pool Sample.genesis
           Sample.stringify_block Sample.cryptoHash Sample.REWARD_INPUT
           Sample.MINING_REWARD Sample.validTransaction
           Sample.calculateBalance
           (λ _, Some (PubSub.ParsedChain Sample.incoming))
           Sample.node "chain" Sample.incoming).
  - reflexivity.
  - simpl. lia.
  - vm_compute. reflexivity.
  - vm_compute. reflexivity.
Defined.

Lemma validTransactionData_input_amount_witness :
  Input.amount (Transaction.input Sample.overdraft)
  ≠ Sample.calculateBalance (Blockchain.chain Sample.local)
      (Input.address (Transaction.input Sample.overdraft))
  ∧ returns (Sample.validTransactionData Sample.local Sample.overdraftChain)
    = false.
Proof.
  assert (Hne : Input.amount (Transaction.input Sample.overdraft)
                ≠ Sample.calculateBalance (Blockchain.chain Sample.local)
                    (Input.address (Transaction.input Sample.overdraft))).
  { vm_compute. discriminate. }
  split; [exact Hne|].
  apply (proj1 (validTransactionData_input_amount Sample.REWARD_INPUT
                  Sample.MINING_REWARD Sample.validTransaction
                  Sample.calculateBalance)
           Sample.local Sample.overdraftChain 1%nat
           (Sample.block_on Sample.genesis 5
              [Sample.overdraft; Sample.rewardTransaction 2 "alice" 50] 7 4)
           Sample.overdraft).
  - lia.
  - reflexivity.
  - apply list_elem_of_here.
  - vm_compute. reflexivity.
  - exact Hne.
Defined.

Lemma validTransactionData_reward_limit_witness :
  returns (Sample.validTransactionData Sample.local Sample.twoRewardsChain)
  = false.
Proof.
  apply (validTransactionData_reward_limit Sample.REWARD_INPUT
           Sample.MINING_REWARD Sample.validTransaction
           Sample.calculateBalance
           Sample.local Sample.twoRewardsChain 1%nat
           (Sample.block_on Sample.genesis 5
              [Sample.payment 1 "t1" "alice" "bob" 65;
               Sample.rewardTransaction 2 "alice" 50;
               Sample.rewardTransaction 2 "alice" 50] 7 4)
           1%nat 2%nat
           (Sample.rewardTransaction 2 "alice" 50)
           (Sample.rewardTransaction 2 "alice" 50)).
  - lia.
  - reflexivity.
  - reflexivity.
  - reflexivity.
  - lia.
  - vm_compute. reflexivity.
  - vm_compute. reflexivity.
Defined.

Lemma validTransactionData_reward_amount_witness :
  999999 ≠ Sample.MINING_REWARD
  ∧ returns (Sample.validTransactionData Sample.local Sample.badRewardChain)
    = false.
Proof.
  assert (Hne : 999999 ≠ Sample.MINING_REWARD).
  { vm_compute. discriminate. }
  split; [exact Hne|].
  apply (validTransactionData_reward_amount Sample.REWARD_INPUT
           Sample.MINING_REWARD Sample.validTransaction
           Sample.calculateBalance
           Sample.local Sample.badRewardChain 1%nat
           (Sample.block_on Sample.genesis 5
              [Sample.payment 1 "t1" "alice" "bob" 65; Sample.badReward] 7 4)
           Sample.badReward "alice" 999999).
  - lia.
  - reflexivity.
  - apply list_elem_of_further, list_elem_of_here.
  - vm_compute. reflexivity.
  - reflexivity.
  - exact Hne.
Defined.

(** The claim C7 read on every block: the first block of
    [Sample.badRewardFirst] holds a reward whose sole output is not the
    mining reward, and the chain passes. *)
Lemma validTransactionData_reward_amount_first_block :
  Sample.badRewardFirst !! 0%nat
  = Some (Block.withData Sample.genesis [Sample.badReward])
  ∧ Sample.badReward
    ∈ Block.data (Block.withData Sample.genesis [Sample.badReward])
  ∧ Blockchain.isReward Sample.REWARD_INPUT Sample.badReward = true
  ∧ Transaction.outputMap Sample.badReward = [("alice", 999999)]
  ∧ 999999 ≠ Sample.MINING_REWARD
  ∧ returns (Sample.validTransactionData Sample.local Sample.badRewardFirst)
    = true.
Proof.
  split_and!; try reflexivity.
  - apply list_elem_of_here.
  - vm_compute. discriminate.
Qed.

Lemma validTransactionData_same_object_witness :
  returns (Sample.validTransactionData Sample.local Sample.repeatedChain)
  = false.
Proof.
  apply (proj1 (validTransactionData_same_object Sample.REWARD_INPUT
                  Sample.MINING_REWARD Sample.validTransaction
                  Sample.calculateBalance)
           Sample.local Sample.repeatedChain 1%nat
           (Sample.block_on Sample.genesis 5
              [Sample.payment 1 "t1" "alice" "bob" 65;
               Sample.payment 1 "t1" "alice" "bob" 65;
               Sample.payment 1 "t1" "alice" "bob" 65;
               Sample.rewardTransaction 2 "alice" 50] 7 4)
           0%nat 1%nat (Sample.payment 1 "t1" "alice" "bob" 65)).
  - lia.
  - reflexivity.
  - reflexivity.
  - reflexivity.
  - lia.
Defined.

(** The claim C8 read on every block: the first block of
    [Sample.repeatedFirst] lists one payment object twice, and the chain
    passes. *)
Lemma validTransactionData_same_object_first_block :
  Sample.repeatedFirst !! 0%nat
  = Some (Block.withData Sample.genesis
            [Sample.payment 1 "t1" "alice" "bob" 65;
             Sample.payment 1 "t1" "alice" "bob" 65])
  ∧ Block.data (Block.withData Sample.genesis
                  [Sample.payment 1 "t1" "alice" "bob" 65;
                   Sample.payment 1 "t1" "alice" "bob" 65]) !! 0%nat
    = Some (Sample.payment 1 "t1" "alice" "bob" 65)
  ∧ Block.data (Block.withData Sample.genesis
                  [Sample.payment 1 "t1" "alice" "bob" 65;
                   Sample.payment 1 "t1" "alice" "bob" 65]) !! 1%nat
    = Some (Sample.payment 1 "t1" "alice" "bob" 65)
  ∧ returns (Sample.validTransactionData Sample.local Sample.repeatedFirst)
    = true.
Proof. split_and!; reflexivity. Qed.

Lemma validTransactionData_reward_first_value_witness :
  Transaction.outputMap Sample.generousReward
  = ("alice", Sample.MINING_REWARD) :: [("mallory", 1000000)]
  ∧ Sample.validTransactionData Sample.local
      [Sample.genesis; Sample.generousBlock] = ReturnTrue.
Proof.
  split; [reflexivity|].
  apply (proj1 (validTransactionData_reward_first_value Sample.REWARD_INPUT
                  Sample.MINING_REWARD Sample.validTransaction
                  Sample.calculateBalance)
           Sample.local Sample.genesis Sample.generousBlock
           Sample.generousReward "alice" [("mallory", 1000000)]).
  - reflexivity.
  - vm_compute. reflexivity.
  - reflexivity.
Defined.

(** * Further properties of the code *)

(** ** Lists, continued *)

Lemma filter_none {B : Type} (P : B → Prop) `{∀ x, Decision (P x)}
    (l : list B) :
  (∀ y, y ∈ l → ¬ P y) → filter P l = [].
Proof.
  induction l as [|a l IH]; intros Hall; [done|].
  rewrite filter_cons_False by (apply Hall, list_elem_of_here).
  apply IH. intros y Hy. by apply Hall, list_elem_of_further.
Qed.

Lemma filter_at_most_one {B : Type} (P : B → Prop) `{∀ x, Decision (P x)}
    (l : list B) :
  (length (filter P l) ≤ 1)%nat ↔
    ∀ j k x y, l !! j = Some x → l !! k = Some y → P x → P y → j = k.
Proof.
  split.
  - intros Hlen j k x y Hj Hk Hx Hy.
    destruct (decide (j = k)) as [|Hjk]; [done|].
    pose proof (filter_two_hits P l j k x y Hjk Hj Hk Hx Hy). lia.
  - induction l as [|a l IH]; intros Hall; [simpl; lia|].
    destruct (decide (P a)) as [Ha|Ha].
    + rewrite filter_cons_True by done.
      assert (filter P l = []) as ->; [|simpl; lia].
      apply filter_none.
      intros y [k Hk]%list_elem_of_lookup_1 Hy.
      by specialize (Hall 0%nat (S k) a y eq_refl Hk Ha Hy).
    + rewrite filter_cons_False by done. apply IH.
      intros j k x y Hj Hk Hx Hy.
      by injection (Hall (S j) (S k) x y Hj Hk Hx Hy).
Qed.

Lemma NoDup_fmap_filter {B C : Type} (f : B → C) (P : B → Prop)
    `{∀ x, Decision (P x)} (l : list B) :
  NoDup (f <$> filter P l) ↔
    ∀ j k x y, l !! j = Some x → l !! k = Some y → P x → P y →
               f x = f y → j = k.
Proof.
  induction l as [|a l IH].
  { split; [by intros _ j k x y ?|constructor]. }
  destruct (decide (P a)) as [Ha|Ha].
  - rewrite filter_cons_True by done. rewrite fmap_cons, NoDup_cons, IH.
    split.
    + intros [Hnotin Hall] [|j] [|k] x y Hj Hk Hx Hy Hf; simplify_eq/=.
      * done.
      * destruct Hnotin. apply list_elem_of_fmap. exists y.
        split; [done|]. apply list_elem_of_filter.
        split; [done|]. by apply (list_elem_of_lookup_2 _ k).
      * destruct Hnotin. apply list_elem_of_fmap. exists x.
        split; [done|]. apply list_elem_of_filter.
        split; [done|]. by apply (list_elem_of_lookup_2 _ j).
      * f_equal. by apply (Hall j k x y).
    + intros Hall. split.
      * intros (y & Hf & [Hy [k Hk]%list_elem_of_lookup_1]%list_elem_of_filter)
          %list_elem_of_fmap.
        by specialize (Hall 0%nat (S k) a y eq_refl Hk Ha Hy Hf).
      * intros j k x y Hj Hk Hx Hy Hf.
        by injection (Hall (S j) (S k) x y Hj Hk Hx Hy Hf).
  - rewrite filter_cons_False by done. rewrite IH. split.
    + intros Hall [|j] [|k] x y Hj Hk Hx Hy Hf; simplify_eq/=; try done.
      f_equal. by apply (Hall j k x y).
    + intros Hall j k x y Hj Hk Hx Hy Hf.
      by injection (Hall (S j) (S k) x y Hj Hk Hx Hy Hf).
Qed.

Lemma returns_agree (v v' : Verdict) :
  (v = ReturnTrue ↔ v' = ReturnTrue) → returns v = returns v'.
Proof.
  destruct v, v'; simpl; intros [H1 H2]; try done.
  - by specialize (H1 eq_refl).
  - by specialize (H2 eq_refl).
Qed.

(** ** Transaction validation, continued *)

Section TransactionDataMore.
Context (REWARD_INPUT : Input.t) (MINING_REWARD : Z).
Context (validTransaction : Transaction.t → bool).
Context (calculateBalance : list Block.t → string → Z).

Local Abbreviation isReward := (Blockchain.isReward REWARD_INPUT).
Local Abbreviation validBlockData :=
  (Blockchain.validBlockData REWARD_INPUT MINING_REWARD
     validTransaction calculateBalance).
Local Abbreviation validBlocks :=
  (Blockchain.validBlocks REWARD_INPUT MINING_REWARD
     validTransaction calculateBalance).
Local Abbreviation validTransactionData :=
  (Blockchain.validTransactionData REWARD_INPUT MINING_REWARD
     validTransaction calculateBalance).

Lemma Forall_tail_chain (P : Block.t → Prop) (chain : list Block.t) :
  Forall P (drop 1 chain) ↔
    ∀ i block, (0 < i)%nat → chain !! i = Some block → P block.
Proof.
  rewrite Forall_lookup. split.
  - intros Hall i block Hi Hb. apply (Hall (i - 1)%nat).
    rewrite lookup_drop. by replace (1 + (i - 1))%nat with i by lia.
  - intros Hall i block Hb. rewrite lookup_drop in Hb.
    apply (Hall (1 + i)%nat); [lia|done].
Qed.

Lemma validTransactionData_blocks this chain :
  validTransactionData this chain = ReturnTrue ↔
    ∀ i block, (0 < i)%nat → chain !! i = Some block →
      validBlockData this (Block.data block) 0%nat ∅ = ReturnTrue.
Proof.
  unfold Blockchain.validTransactionData.
  rewrite validBlocks_ReturnTrue. apply Forall_tail_chain.
Qed.

Lemma validBlocks_app this blocks more :
  validBlocks this (blocks ++ more)
  = match validBlocks this blocks with
    | ReturnFalse line => ReturnFalse line
    | ReturnTrue => validBlocks this more
    end.
Proof.
  induction blocks as [|block rest IH]; [done|].
  cbn [app Blockchain.validBlocks].
  by destruct (validBlockData this (Block.data block) 0%nat ∅).
Qed.

(** What a block must be like for its loop to run to the end, in terms
    of its transactions alone. *)
Lemma validBlockData_block_iff this data :
  validBlockData this data 0%nat ∅ = ReturnTrue ↔
    (∀ t, t ∈ data →
       if isReward t
       then head (snd <$> Transaction.outputMap t) = Some MINING_REWARD
       else validTransaction t = true
            ∧ Input.amount (Transaction.input t)
              = calculateBalance (Blockchain.chain this)
                  (Input.address (Transaction.input t)))
    ∧ (∀ j k t t', data !! j = Some t → data !! k = Some t' →
         isReward t = true → isReward t' = true → j = k)
    ∧ (∀ j k t t', data !! j = Some t → data !! k = Some t' →
         isReward t = false → isReward t' = false →
         Transaction.ref t = Transaction.ref t' → j = k).
Proof.
  rewrite validBlockData_ReturnTrue by lia.
  unfold Blockchain.rewards, Blockchain.payments.
  rewrite Forall_forall, Nat.add_0_l.
  rewrite (filter_at_most_one (λ t, isReward t = true)).
  rewrite (NoDup_fmap_filter Transaction.ref (λ t, isReward t = false)).
  assert (Hok : ∀ t,
    Blockchain.txOk REWARD_INPUT MINING_REWARD validTransaction
      calculateBalance this t ↔
    (if isReward t
     then head (snd <$> Transaction.outputMap t) = Some MINING_REWARD
     else validTransaction t = true
          ∧ Input.amount (Transaction.input t)
            = calculateBalance (Blockchain.chain this)
                (Input.address (Transaction.input t)))).
  { intros t. unfold Blockchain.txOk, Blockchain.rewardAmountInvalid.
    destruct (isReward t); [|done].
    destruct (head (snd <$> Transaction.outputMap t)) as [amount|];
      [|by split].
    destruct (Z.eqb_spec amount MINING_REWARD); simpl; split; intros;
      simplify_eq; done. }
  split.
  - intros (Hall & Hone & Hnd & _). split_and!; [|done..].
    intros t Ht. by apply Hok, Hall.
  - intros (Hall & Hone & Hnd). split_and!; [|done..|].
    + intros t Ht. by apply Hok, Hall.
    + intros t _. apply not_elem_of_empty.
Qed.

(** X1. [validTransactionData] returns true exactly when, in every block
    after the first, each reward has [MINING_REWARD] as the first value of
    its [outputMap], each payment passes [validTransaction] and states the
    balance its sender has on the local chain, at most one transaction is
    a reward, and no payment object is listed twice. *)
Theorem validTransactionData_true_iff this chain :
  validTransactionData this chain = ReturnTrue ↔
    ∀ i block, (0 < i)%nat → chain !! i = Some block →
      (∀ t, t ∈ Block.data block →
         if isReward t
         then head (snd <$> Transaction.outputMap t) = Some MINING_REWARD
         else validTransaction t = true
              ∧ Input.amount (Transaction.input t)
                = calculateBalance (Blockchain.chain this)
                    (Input.address (Transaction.input t)))
      ∧ (∀ j k t t',
           Block.data block !! j = Some t → Block.data block !! k = Some t' →
           isReward t = true → isReward t' = true → j = k)
      ∧ (∀ j k t t',
           Block.data block !! j = Some t → Block.data block !! k = Some t' →
           isReward t = false → isReward t' = false →
           Transaction.ref t = Transaction.ref t' → j = k).
Proof.
  rewrite validTransactionData_blocks. split.
  - intros Hall i block Hi Hb. by apply validBlockData_block_iff, (Hall i).
  - intros Hall i block Hi Hb. by apply validBlockData_block_iff, (Hall i).
Qed.

(** X2. The blocks of a candidate are judged one by one: a chain all of
    whose blocks after the first occur, after the first, in a chain that
    passes [validTransactionData] passes as well, so that blocks may be
    reordered, left out or repeated.  The set of seen transactions does
    not outlive a block. *)
Theorem validTransactionData_blockwise this chain chain' :
  validTransactionData this chain = ReturnTrue →
  (∀ i' block, (0 < i')%nat → chain' !! i' = Some block →
     ∃ i, (0 < i)%nat ∧ chain !! i = Some block) →
  validTransactionData this chain' = ReturnTrue.
Proof.
  rewrite !validTransactionData_blocks. intros Hall Hsub i' block Hi' Hb.
  destruct (Hsub i' block Hi' Hb) as (i & Hi & Hb'). by apply (Hall i).
Qed.

Lemma validBlockData_perm this data data' :
  data ≡ₚ data' →
  validBlockData this data 0%nat ∅ = ReturnTrue →
  validBlockData this data' 0%nat ∅ = ReturnTrue.
Proof.
  intros Hp. rewrite !validBlockData_ReturnTrue by lia.
  unfold Blockchain.rewards, Blockchain.payments.
  intros (Hall & Hone & Hnd & _). split_and!.
  - by rewrite <- Hp.
  - by rewrite <- Hp.
  - by rewrite <- Hp.
  - intros t _. apply not_elem_of_empty.
Qed.

(** X3. Whether [validTransactionData] returns true depends on the blocks
    after the first only through the transactions each one holds, in any
    order: two chains of the same length whose blocks hold, index by
    index, the same transactions up to order get the same answer. *)
Theorem validTransactionData_order this chain chain' :
  length chain = length chain' →
  (∀ i block block', (0 < i)%nat →
     chain !! i = Some block → chain' !! i = Some block' →
     Block.data block ≡ₚ Block.data block') →
  returns (validTransactionData this chain)
  = returns (validTransactionData this chain').
Proof.
  intros Hlen Hperm. apply returns_agree.
  rewrite !validTransactionData_blocks. split.
  - intros Hall i block' Hi Hb'.
    destruct (lookup_lt_is_Some_2 chain i) as [block Hb].
    { rewrite Hlen. by apply (lookup_lt_Some _ _ block'). }
    apply (validBlockData_perm this (Block.data block)).
    + by apply (Hperm i).
    + by apply (Hall i).
  - intros Hall i block Hi Hb.
    destruct (lookup_lt_is_Some_2 chain' i) as [block' Hb'].
    { rewrite <- Hlen. by apply (lookup_lt_Some _ _ block). }
    apply (validBlockData_perm this (Block.data block')).
    + symmetry. by apply (Hperm i).
    + by apply (Hall i).
Qed.

(** X4. [validTransactionData] stops at the first block that fails: on a
    chain continued by further blocks it reports what it reports on the
    chain alone when that fails, and otherwise what the further blocks
    earn on their own. *)
Theorem validTransactionData_app this chain more first :
  chain ≠ [] →
  validTransactionData this (chain ++ more)
  = match validTransactionData this chain with
    | ReturnFalse line => ReturnFalse line
    | ReturnTrue => validTransactionData this (first :: more)
    end.
Proof.
  intros Hne. unfold Blockchain.validTransactionData.
  destruct chain as [|x rest]; [done|]. simpl.
  rewrite !drop_0. apply validBlocks_app.
Qed.

End TransactionDataMore.

(** ** Structural validation, continued *)

Section ChainMore.
Context (genesis : Block.t) (JSON_stringify : Block.t → string).
Context (cryptoHash : list JsValue → string).

Local Abbreviation validLink := (Blockchain.validLink cryptoHash).
Local Abbreviation validLinks := (Blockchain.validLinks cryptoHash).
Local Abbreviation isValidChain :=
  (Blockchain.isValidChain genesis JSON_stringify cryptoHash).

Lemma validLinks_snoc previous blocks block :
  validLinks previous (blocks ++ [block])
  = validLinks previous blocks
    && validLink (default previous (last blocks)) block.
Proof.
  revert previous. induction blocks as [|x rest IH]; intros previous.
  { simpl. by destruct (validLink previous block). }
  cbn [app Blockchain.validLinks].
  destruct (validLink previous x); [|done].
  rewrite IH. f_equal. f_equal.
  destruct rest as [|y rest']; [done|].
  rewrite last_cons_cons. simpl.
  by destruct (last (y :: rest')) eqn:Hl; [|apply last_None in Hl].
Qed.

Lemma validLinks_take previous blocks n :
  validLinks previous blocks = true →
  validLinks previous (take n blocks) = true.
Proof.
  revert previous n. induction blocks as [|x rest IH]; intros previous n.
  { by destruct n. }
  destruct n as [|n]; [done|].
  cbn [take Blockchain.validLinks].
  destruct (validLink previous x); [|done]. apply IH.
Qed.

(** Along the links the difficulty moves by one at most per block. *)
Lemma validLinks_drift previous blocks :
  validLinks previous blocks = true →
  ∀ i k a b,
    (previous :: blocks) !! i = Some a →
    (previous :: blocks) !! (i + k)%nat = Some b →
    Z.abs (Block.difficulty b - Block.difficulty a) ≤ Z.of_nat k.
Proof.
  intros Hl i k. induction k as [|k IH]; intros a b Ha Hb.
  { rewrite Nat.add_0_r in Hb. simplify_eq. lia. }
  destruct (lookup_lt_is_Some_2 (previous :: blocks) (i + k)%nat) as [c Hc].
  { apply lookup_lt_Some in Hb. lia. }
  specialize (IH a c Ha Hc).
  replace (i + S k)%nat with (S (i + k)) in Hb by lia.
  pose proof (proj1 (validLinks_true cryptoHash previous blocks) Hl
                (i + k)%nat c b Hc Hb) as Hlink.
  apply validLink_true in Hlink as (_ & _ & Hd). lia.
Qed.

(** X5. A chain that passes [isValidChain] passes in every prefix that
    keeps its first block. *)
Theorem isValidChain_take chain n :
  (0 < n)%nat →
  isValidChain chain = true →
  isValidChain (take n chain) = true.
Proof.
  intros Hn. destruct chain as [|first rest]; [done|].
  destruct n as [|n]; [lia|].
  unfold Blockchain.isValidChain. cbn [take].
  destruct (negb _); [done|]. apply validLinks_take.
Qed.

Lemma isValidChain_snoc_eq chain lastBlock block :
  last chain = Some lastBlock →
  isValidChain (chain ++ [block])
  = isValidChain chain && validLink lastBlock block.
Proof.
  intros Hlast. destruct chain as [|first rest]; [done|].
  unfold Blockchain.isValidChain. cbn [app].
  destruct (negb _); [done|].
  rewrite validLinks_snoc. f_equal. f_equal.
  destruct rest as [|y rest']; [by simplify_eq/=|].
  rewrite last_cons_cons in Hlast. by rewrite Hlast.
Qed.

(** X6. Appending a block to a chain that has a last block gives a chain
    that passes [isValidChain] exactly when the chain passed and the new
    block carries the hash of the last one as [lastHash], the digest of
    its own fields as [hash] and a difficulty within one of the last
    one's. *)
Theorem isValidChain_snoc chain lastBlock block :
  last chain = Some lastBlock →
  isValidChain (chain ++ [block]) = true ↔
    isValidChain chain = true
    ∧ Block.lastHash block = Block.hash lastBlock
    ∧ Block.hash block
      = cryptoHash [JsNumber (Block.timestamp block);
                    JsString (Block.lastHash block);
                    JsData (Block.data block);
                    JsNumber (Block.nonce block);
                    JsNumber (Block.difficulty block)]
    ∧ Z.abs (Block.difficulty block - Block.difficulty lastBlock) ≤ 1.
Proof.
  intros Hlast.
  rewrite (isValidChain_snoc_eq chain lastBlock block Hlast).
  by rewrite andb_true_iff, validLink_true.
Qed.

(** X7. In a chain that passes [isValidChain] the difficulties of two
    blocks differ by no more than the number of blocks between them. *)
Theorem isValidChain_difficulty_drift chain i j a b :
  isValidChain chain = true →
  (i ≤ j)%nat →
  chain !! i = Some a → chain !! j = Some b →
  Z.abs (Block.difficulty b - Block.difficulty a) ≤ Z.of_nat (j - i).
Proof.
  intros Hv Hij Ha Hb. destruct chain as [|first rest]; [done|].
  unfold Blockchain.isValidChain in Hv.
  destruct (negb _); [done|].
  apply (validLinks_drift first rest Hv i (j - i)%nat a b Ha).
  by replace (i + (j - i))%nat with j by lia.
Qed.

End ChainMore.

(** ** Chain replacement and mining, continued *)

Section ReplaceChainMore.
Context (genesis : Block.t) (JSON_stringify : Block.t → string).
Context (cryptoHash : list JsValue → string).
Context (REWARD_INPUT : Input.t) (MINING_REWARD : Z).
Context (validTransaction : Transaction.t → bool).
Context (calculateBalance : list Block.t → string → Z).
Context {Clock : Type}.
Context (mineBlock :
  Clock → option Block.t → list Transaction.t → option Block.t).

Local Abbreviation validLink := (Blockchain.validLink cryptoHash).
Local Abbreviation isValidChain :=
  (Blockchain.isValidChain genesis JSON_stringify cryptoHash).
Local Abbreviation validTransactionData :=
  (Blockchain.validTransactionData REWARD_INPUT MINING_REWARD
     validTransaction calculateBalance).
Local Abbreviation replaceChain :=
  (Blockchain.replaceChain genesis JSON_stringify cryptoHash
     REWARD_INPUT MINING_REWARD validTransaction calculateBalance).
Local Abbreviation addBlock := (Blockchain.addBlock Clock mineBlock).

(** One call either keeps the ledger or installs a candidate that is
    longer and structurally valid. *)
Lemma replaceChain_step this chain validateTransactions onSuccess w :
  (replaceChain this chain validateTransactions onSuccess w).1 = this
  ∨ ((replaceChain this chain validateTransactions onSuccess w).1
       = {| Blockchain.chain := chain |}
     ∧ (length (Blockchain.chain this) < length chain)%nat
     ∧ isValidChain chain = true).
Proof.
  destruct (accepted_or_not genesis JSON_stringify cryptoHash REWARD_INPUT
              MINING_REWARD validTransaction calculateBalance
              this chain validateTransactions)
    as [(Hlen & Hvalid & Hdata)|Hwhy].
  - right. by rewrite replaceChain_accept.
  - left.
    by destruct (replaceChain_reject genesis JSON_stringify cryptoHash
                   REWARD_INPUT MINING_REWARD validTransaction
                   calculateBalance this chain validateTransactions
                   onSuccess w Hwhy) as (lines & _ & ->).
Qed.

(** X8. Whatever candidates are offered to [replaceChain] one after the
    other, with whatever flags and callbacks, the local chain at the end
    is the one at the start or one of the candidates, whole, that is
    strictly longer than the one at the start and passes [isValidChain];
    so the local chain never gets shorter and, once valid, stays valid. *)
Theorem replaceChain_sequence this w
    (calls : list (list Block.t * JsArg * option (World → World))) :
  let final :=
    foldl (λ st call, replaceChain st.1 call.1.1 call.1.2 call.2 st.2)
      (this, w) calls in
  (final.1 = this
   ∨ ∃ call, call ∈ calls
       ∧ final.1 = {| Blockchain.chain := call.1.1 |}
       ∧ (length (Blockchain.chain this) < length call.1.1)%nat
       ∧ isValidChain call.1.1 = true)
  ∧ (length (Blockchain.chain this) ≤ length (Blockchain.chain final.1))%nat
  ∧ (isValidChain (Blockchain.chain this) = true →
     isValidChain (Blockchain.chain final.1) = true).
Proof.
  simpl.
  induction calls as [|call calls IH] using rev_ind.
  { simpl. split_and!; [by left|lia|done]. }
  rewrite foldl_snoc.
  set (st := foldl (λ st call,
                 replaceChain st.1 call.1.1 call.1.2 call.2 st.2)
               (this, w) calls) in *.
  destruct IH as (Hwhich & Hlen & Hvalid).
  assert (Hfirst :
    (replaceChain st.1 call.1.1 call.1.2 call.2 st.2).1 = this
    ∨ ∃ call', call' ∈ calls ++ [call]
        ∧ (replaceChain st.1 call.1.1 call.1.2 call.2 st.2).1
          = {| Blockchain.chain := call'.1.1 |}
        ∧ (length (Blockchain.chain this) < length call'.1.1)%nat
        ∧ isValidChain call'.1.1 = true).
  { destruct (replaceChain_step st.1 call.1.1 call.1.2 call.2 st.2)
      as [->|(-> & Hlonger & Hv)].
    - destruct Hwhich as [?|(call' & Hin & ? & ? & ?)]; [by left|].
      right. exists call'. split_and!; [|done..].
      apply elem_of_app. by left.
    - right. exists call. split_and!; [|done|lia|done].
      apply elem_of_app. right. apply list_elem_of_here. }
  split; [exact Hfirst|].
  destruct Hfirst as [->|(call' & _ & -> & Hlonger & Hv)]; simpl.
  - split; [lia|done].
  - split; [lia|done].
Qed.

(** X9. A candidate is taken at most once: offering it again with the
    same flag leaves the ledger as the first offer left it, and after it
    was accepted any further offer of it is answered with "the incoming
    chain must be longer", without running the callback. *)
Theorem replaceChain_again
    this chain validateTransactions onSuccess w onSuccess' w' :
  let first := replaceChain this chain validateTransactions onSuccess w in
  (replaceChain first.1 chain validateTransactions onSuccess' w').1
  = first.1
  ∧ (first.1 = {| Blockchain.chain := chain |} →
     ∀ validateTransactions',
       replaceChain first.1 chain validateTransactions' onSuccess' w'
       = (first.1, error "the incoming chain must be longer" w')).
Proof.
  simpl. split.
  - destruct (accepted_or_not genesis JSON_stringify cryptoHash REWARD_INPUT
                MINING_REWARD validTransaction calculateBalance
                this chain validateTransactions)
      as [(Hlen & Hvalid & Hdata)|Hwhy].
    + rewrite (replaceChain_accept _ _ _ _ _ _ _ this) by done. simpl.
      unfold Blockchain.replaceChain. simpl.
      by rewrite Nat.leb_refl.
    + destruct (replaceChain_reject genesis JSON_stringify cryptoHash
                  REWARD_INPUT MINING_REWARD validTransaction
                  calculateBalance this chain validateTransactions
                  onSuccess w Hwhy) as (lines & _ & ->). simpl.
      by destruct (replaceChain_reject genesis JSON_stringify cryptoHash
                     REWARD_INPUT MINING_REWARD validTransaction
                     calculateBalance this chain validateTransactions
                     onSuccess' w' Hwhy) as (lines' & _ & ->).
  - intros -> validateTransactions'.
    unfold Blockchain.replaceChain. simpl. by rewrite Nat.leb_refl.
Qed.

(** X10. [addBlock] on a chain that passes [isValidChain], with a miner
    whose block links to the last one, gives a chain that passes, one
    block longer, with the old blocks where they were and the mined block
    at the end. *)
Theorem addBlock_valid this data clock this' :
  isValidChain (Blockchain.chain this) = true →
  (∀ lastBlock newBlock,
     mineBlock clock (Some lastBlock) data = Some newBlock →
     validLink lastBlock newBlock = true) →
  addBlock this data clock = Some this' →
  isValidChain (Blockchain.chain this') = true
  ∧ length (Blockchain.chain this') = S (length (Blockchain.chain this))
  ∧ take (length (Blockchain.chain this)) (Blockchain.chain this')
    = Blockchain.chain this
  ∧ mineBlock clock (last (Blockchain.chain this)) data
    = last (Blockchain.chain this').
Proof.
  intros Hvalid Hminer Hadd. unfold Blockchain.addBlock in Hadd.
  destruct (last (Blockchain.chain this)) as [lastBlock|] eqn:Hlast.
  2:{ apply last_None in Hlast. by rewrite Hlast in Hvalid. }
  destruct (mineBlock clock (Some lastBlock) data) as [newBlock|] eqn:Hm;
    [|done].
  injection Hadd as <-. simpl. split_and!.
  - rewrite (isValidChain_snoc_eq _ _ _ _ lastBlock) by done.
    by rewrite Hvalid, (Hminer lastBlock newBlock Hm).
  - rewrite length_app. simpl. lia.
  - by rewrite take_app_length.
  - by rewrite last_snoc.
Qed.

(** X11. A peer whose chain is no longer than a valid local chain takes
    over the local chain after [addBlock], when the miner's block links
    to the last one and, if the peer validates transactions, the new chain
    passes its [validTransactionData]. *)
Theorem addBlock_then_replaceChain
    this data clock this' peer validateTransactions onSuccess w :
  isValidChain (Blockchain.chain this) = true →
  (∀ lastBlock newBlock,
     mineBlock clock (Some lastBlock) data = Some newBlock →
     validLink lastBlock newBlock = true) →
  addBlock this data clock = Some this' →
  (length (Blockchain.chain peer) ≤ length (Blockchain.chain this))%nat →
  (truthy validateTransactions = true →
   returns (validTransactionData peer (Blockchain.chain this')) = true) →
  replaceChain peer (Blockchain.chain this') validateTransactions
    onSuccess w
  = (this', call onSuccess w).
Proof.
  intros Hvalid Hminer Hadd Hlen Hdata.
  unfold Blockchain.addBlock in Hadd.
  destruct (last (Blockchain.chain this)) as [lastBlock|] eqn:Hlast.
  2:{ apply last_None in Hlast. by rewrite Hlast in Hvalid. }
  destruct (mineBlock clock (Some lastBlock) data) as [newBlock|] eqn:Hm;
    [|done].
  injection Hadd as <-. simpl in *.
  apply replaceChain_accept; [|
    |done].
  - rewrite length_app. simpl. lia.
  - rewrite (isValidChain_snoc_eq _ _ _ _ lastBlock) by done.
    by rewrite Hvalid, (Hminer lastBlock newBlock Hm).
Qed.

End ReplaceChainMore.

(** ** The listener, continued *)

Section ListenerMore.
Context (genesis : Block.t) (JSON_stringify : Block.t → string).
Context (cryptoHash : list JsValue → string).
Context (REWARD_INPUT : Input.t) (MINING_REWARD : Z).
Context (validTransaction : Transaction.t → bool).
Context (calculateBalance : list Block.t → string → Z).
Context (JSON_parse : string → option PubSub.Parsed).
Context (JSON_stringify_chain : list Block.t → string).

Local Abbreviation isValidChain :=
  (Blockchain.isValidChain genesis JSON_stringify cryptoHash).
Local Abbreviation validTransactionData :=
  (Blockchain.validTransactionData REWARD_INPUT MINING_REWARD
     validTransaction calculateBalance).
Local Abbreviation replaceChain :=
  (Blockchain.replaceChain genesis JSON_stringify cryptoHash
     REWARD_INPUT MINING_REWARD validTransaction calculateBalance).
Local Abbreviation listener :=
  (PubSub.listener genesis JSON_stringify cryptoHash
     REWARD_INPUT MINING_REWARD validTransaction calculateBalance
     JSON_parse).
Local Abbreviation broadcastChain :=
  (PubSub.broadcastChain JSON_stringify_chain).



(** X12. On the chain channel the listener always has the transactions
    of the candidate validated: the ledger afterwards is the parsed chain
    when that is strictly longer than the local one and passes both
    [isValidChain] and [validTransactionData], and the old ledger
    otherwise. *)
Theorem listener_chain_update_iff this message chain :
  JSON_parse message = Some (PubSub.ParsedChain chain) →
  ∃ this',
    listener this PubSub.CHANNELS.BLOCKCHAIN message = Some this'
    ∧ PubSub.blockchain this'
      = if (length (Blockchain.chain (PubSub.blockchain this))
            <? length chain)%nat
           && isValidChain chain
           && returns (validTransactionData (PubSub.blockchain this) chain)
        then {| Blockchain.chain := chain |}
        else PubSub.blockchain this.
Proof.
  intros Hp. rewrite (listener_chain_update _ _ _ _ _ _ _ _ _ _ _ Hp).
  eexists. split; [done|]. simpl.
  set (w := log _ _).
  destruct (accepted_or_not genesis JSON_stringify cryptoHash REWARD_INPUT
              MINING_REWARD validTransaction calculateBalance
              (PubSub.blockchain this) chain
              (JsFunction (pool_call (clearBlockchainTransactions chain))))
    as [(Hlen & Hvalid & Hdata)|Hwhy].
  - rewrite replaceChain_accept by done. simpl.
    apply Nat.ltb_lt in Hlen. by rewrite Hlen, Hvalid, (Hdata eq_refl).
  - destruct (replaceChain_reject genesis JSON_stringify cryptoHash
                REWARD_INPUT MINING_REWARD validTransaction
                calculateBalance (PubSub.blockchain this) chain
                (JsFunction (pool_call (clearBlockchainTransactions chain)))
                None w Hwhy) as (lines & _ & ->). simpl.
    destruct Hwhy as [Hle|[Hinv|[_ Hdata]]].
    + apply Nat.ltb_ge in Hle. by rewrite Hle.
    + rewrite Hinv. by rewrite andb_false_r.
    + rewrite Hdata. by rewrite andb_false_r.
Qed.



(** X15. A node that hears its own [broadcastChain] keeps its ledger and
    tells its pool nothing, as long as parsing the message gives no more
    blocks than were serialised. *)
Theorem listener_own_broadcast this network p chain :
  last (broadcastChain this network) = Some p →
  JSON_parse (PubSub.message p) = Some (PubSub.ParsedChain chain) →
  (length chain ≤ length (Blockchain.chain (PubSub.blockchain this)))%nat →
  ∃ this',
    listener this (PubSub.channel p) (PubSub.message p) = Some this'
    ∧ PubSub.blockchain this' = PubSub.blockchain this
    ∧ transactionPool (PubSub.world this')
      = transactionPool (PubSub.world this)
    ∧ last (console (PubSub.world this'))
      = Some (console_error "the incoming chain must be longer").
Proof.
  intros Hlast Hp Hlen.
  unfold PubSub.broadcastChain, PubSub.publish in Hlast.
  rewrite last_snoc in Hlast. injection Hlast as <-. simpl in *.
  rewrite (listener_chain_update _ _ _ _ _ _ _ _ _ _ _ Hp).
  eexists. split; [done|]. simpl.
  unfold Blockchain.replaceChain.
  apply Nat.leb_le in Hlen. rewrite Hlen. simpl.
  split_and!; [done..|]. by rewrite last_snoc.
Qed.

End ListenerMore.

(** ** The further properties on the sample configuration *)

Lemma sample_miner_links clock data lastBlock newBlock :
  Sample.mineBlock clock (Some lastBlock) data = Some newBlock →
  Blockchain.validLink Sample.cryptoHash lastBlock newBlock = true.
Proof.
  intros [= <-]. apply validLink_true. simpl. split_and!; [done..|lia].
Qed.

Lemma validTransactionData_blockwise_witness :
  Sample.validTransactionData Sample.local Sample.replayChain = ReturnTrue.
Proof.
  apply (validTransactionData_blockwise Sample.REWARD_INPUT
           Sample.MINING_REWARD Sample.validTransaction
           Sample.calculateBalance Sample.local Sample.incoming
           Sample.replayChain).
  - vm_compute. reflexivity.
  - intros [|[|[|i']]] block Hi' Hb; [lia| | |done].
    + exists 1%nat. split; [lia|exact Hb].
    + exists 1%nat. split; [lia|exact Hb].
Defined.

Lemma validTransactionData_order_witness :
  returns (Sample.validTransactionData Sample.local Sample.incoming)
  = returns (Sample.validTransactionData Sample.local Sample.swappedChain).
Proof.
  apply (validTransactionData_order Sample.REWARD_INPUT
           Sample.MINING_REWARD Sample.validTransaction
           Sample.calculateBalance Sample.local Sample.incoming
           Sample.swappedChain).
  - reflexivity.
  - intros [|[|i]] block block' Hi Hb Hb'; [lia| |done].
    injection Hb as <-. injection Hb' as <-. apply perm_swap.
Defined.

Lemma validTransactionData_app_witness :
  Sample.validTransactionData Sample.local
    (Sample.overdraftChain ++ [Sample.block1])
  = ReturnFalse "invalid input amount".
Proof.
  unfold Sample.validTransactionData.
  rewrite (validTransactionData_app Sample.REWARD_INPUT
             Sample.MINING_REWARD Sample.validTransaction
             Sample.calculateBalance Sample.local Sample.overdraftChain
             [Sample.block1] Sample.genesis); [|done].
  vm_compute. reflexivity.
Defined.

Lemma isValidChain_take_witness :
  Sample.isValidChain (take 1 Sample.incoming) = true.
Proof.
  apply (isValidChain_take Sample.genesis Sample.stringify_block
           Sample.cryptoHash Sample.incoming 1).
  - lia.
  - vm_compute. reflexivity.
Defined.

Lemma isValidChain_snoc_witness :
  Sample.isValidChain ([Sample.genesis] ++ [Sample.block1]) = true.
Proof.
  apply (isValidChain_snoc Sample.genesis Sample.stringify_block
           Sample.cryptoHash [Sample.genesis] Sample.genesis Sample.block1).
  - reflexivity.
  - split_and!; [vm_compute; reflexivity|reflexivity|reflexivity|].
    vm_compute. discriminate.
Defined.

Lemma isValidChain_difficulty_drift_witness :
  Z.abs (Block.difficulty Sample.block1 - Block.difficulty Sample.genesis)
  ≤ Z.of_nat (1 - 0).
Proof.
  apply (isValidChain_difficulty_drift Sample.genesis Sample.stringify_block
           Sample.cryptoHash Sample.incoming 0 1).
  - vm_compute. reflexivity.
  - lia.
  - reflexivity.
  - reflexivity.
Defined.

Lemma addBlock_valid_witness :
  Sample.isValidChain [Sample.genesis; Sample.block_on Sample.genesis 5 [] 0 4]
  = true.
Proof.
  apply (addBlock_valid Sample.genesis Sample.stringify_block
           Sample.cryptoHash Sample.mineBlock Sample.local [] 5
           {| Blockchain.chain :=
                [Sample.genesis; Sample.block_on Sample.genesis 5 [] 0 4] |}).
  - vm_compute. reflexivity.
  - apply sample_miner_links.
  - reflexivity.
Defined.

Lemma addBlock_then_replaceChain_witness :
  Sample.replaceChain Sample.local
    [Sample.genesis; Sample.block_on Sample.genesis 5 [] 0 4]
    JsUndefined None Sample.quiet
  = ({| Blockchain.chain :=
          [Sample.genesis; Sample.block_on Sample.genesis 5 [] 0 4] |},
     Sample.quiet).
Proof.
  apply (addBlock_then_replaceChain Sample.genesis Sample.stringify_block
           Sample.cryptoHash Sample.REWARD_INPUT Sample.MINING_REWARD
           Sample.validTransaction Sample.calculateBalance
           Sample.mineBlock Sample.local [] 5
           {| Blockchain.chain :=
                [Sample.genesis; Sample.block_on Sample.genesis 5 [] 0 4] |}
           Sample.local JsUndefined None Sample.quiet).
  - vm_compute. reflexivity.
  - apply sample_miner_links.
  - reflexivity.
  - simpl. lia.
  - simpl. discriminate.
Defined.

Lemma listener_chain_update_iff_witness :
  ∃ this',
    Sample.listener Sample.overdraftChain Sample.node
      PubSub.CHANNELS.BLOCKCHAIN "chain" = Some this'
    ∧ PubSub.blockchain this' = Sample.local.
Proof.
  destruct (listener_chain_update_iff Sample.genesis Sample.stringify_block
              Sample.cryptoHash Sample.REWARD_INPUT Sample.MINING_REWARD
              Sample.validTransaction Sample.calculateBalance
              (λ _, Some (PubSub.ParsedChain Sample.overdraftChain))
              Sample.node "chain" Sample.overdraftChain eq_refl)
    as (this' & Hl & Hb).
  exists this'. split; [exact Hl|]. rewrite Hb. vm_compute. reflexivity.
Defined.



Lemma listener_own_broadcast_witness :
  ∃ this',
    Sample.listener [Sample.genesis] Sample.node PubSub.CHANNELS.BLOCKCHAIN
      (Sample.stringify_chain [Sample.genesis]) = Some this'
    ∧ PubSub.blockchain this' = PubSub.blockchain Sample.node.
Proof.
  destruct (listener_own_broadcast Sample.genesis Sample.stringify_block
              Sample.cryptoHash Sample.REWARD_INPUT Sample.MINING_REWARD
              Sample.validTransaction Sample.calculateBalance
              (λ _, Some (PubSub.ParsedChain [Sample.genesis]))
              Sample.stringify_chain Sample.node []
              {| PubSub.channel := PubSub.CHANNELS.BLOCKCHAIN;
                 PubSub.message := Sample.stringify_chain [Sample.genesis] |}
              [Sample.genesis])
    as (this' & Hl & Hb & _).
  - reflexivity.
  - reflexivity.
  - simpl. lia.
  - exists this'. split; [exact Hl|exact Hb].
Defined.

(** ** A chain built by the node itself *)

Section LocalChain.
Context (genesis : Block.t) (JSON_stringify : Block.t → string).
Context (cryptoHash : list JsValue → string).
Context {Clock : Type}.
Context (mineBlock :
  Clock → option Block.t → list Transaction.t → option Block.t).

Local Abbreviation validLink := (Blockchain.validLink cryptoHash).
Local Abbreviation isValidChain :=
  (Blockchain.isValidChain genesis JSON_stringify cryptoHash).
Local Abbreviation addBlock := (Blockchain.addBlock Clock mineBlock).

(** X16. Starting from a new ledger, any number of [addBlock] calls that
    all return, with a miner whose blocks link to the block they are mined
    on, give a chain that passes [isValidChain], begins with the genesis
    block and has one block more per call. *)
Theorem addBlock_sequence (calls : list (list Transaction.t * Clock)) final :
  (∀ clock data lastBlock newBlock,
     mineBlock clock (Some lastBlock) data = Some newBlock →
     validLink lastBlock newBlock = true) →
  foldl (λ st call, st ≫= λ this, addBlock this call.1 call.2)
    (Some (Blockchain.new genesis)) calls = Some final →
  isValidChain (Blockchain.chain final) = true
  ∧ Blockchain.chain final !! 0%nat = Some genesis
  ∧ length (Blockchain.chain final) = S (length calls).
Proof.
  intros Hminer. revert final.
  induction calls as [|call calls IH] using rev_ind; intros final Hf.
  { injection Hf as <-. simpl. split_and!; [|done..].
    unfold Blockchain.isValidChain. by rewrite String.eqb_refl. }
  rewrite foldl_snoc in Hf.
  destruct (foldl _ _ calls) as [this|] eqn:Hprev; [|done].
  simpl in Hf. destruct (IH this eq_refl) as (Hvalid & Hfirst & Hlen).
  unfold Blockchain.addBlock in Hf.
  destruct (last (Blockchain.chain this)) as [lastBlock|] eqn:Hlast.
  2:{ apply last_None in Hlast. by rewrite Hlast in Hvalid. }
  destruct (mineBlock call.2 (Some lastBlock) call.1) as [newBlock|] eqn:Hm;
    [|done].
  injection Hf as <-. simpl. split_and!.
  - rewrite (isValidChain_snoc_eq _ _ _ _ lastBlock) by done.
    by rewrite Hvalid, (Hminer _ _ _ _ Hm).
  - rewrite lookup_app_l; [done|]. by apply lookup_lt_Some in Hfirst.
  - rewrite !length_app, Hlen. simpl. lia.
Qed.

End LocalChain.

Lemma addBlock_sequence_witness :
  Sample.isValidChain
    [Sample.genesis; Sample.block_on Sample.genesis 5 [] 0 4;
     Sample.block_on (Sample.block_on Sample.genesis 5 [] 0 4) 6 [] 0 5]
  = true.
Proof.
  apply (addBlock_sequence Sample.genesis Sample.stringify_block
           Sample.cryptoHash Sample.mineBlock [([], 5); ([], 6)]
           {| Blockchain.chain :=
                [Sample.genesis; Sample.block_on Sample.genesis 5 [] 0 4;
                 Sample.block_on
                   (Sample.block_on Sample.genesis 5 [] 0 4) 6 [] 0 5] |}).
  - intros clock data. apply sample_miner_links.
  - reflexivity.
Defined.
